(** * SparseBinaryDistance: a shallow embedding of [sparseDistance]

    The development follows [src/sparsebinarydistance/distance.py]:
    the iterative filter (the [while] loop), the feature weights, the
    pairwise lower-triangle loop and the mirroring loop.  Counting and
    filtering are modelled on lists and integers and are executable;
    the floating-point quantities are modelled in exact real arithmetic
    ([R]), so rounding, overflow and the result of a division by zero
    are outside the model. *)

From Stdlib Require Import String List Bool Arith ZArith Lia Reals Lra.
Import ListNotations.

Set Implicit Arguments.

(** ** Data model *)

(** An entry of the cell by observation matrix: the docstring fixes the
    contents to 1s, 0s and NaNs for missing data. *)
Inductive obs : Type :=
| Present  (* 1 *)
| Absent   (* 0 *)
| Missing. (* NaN *)

(** The three element-wise comparisons the source uses.  Every
    comparison with NaN is False. *)
Definition ge0 (v : obs) : bool :=          (* v >= 0 *)
  match v with Missing => false | _ => true end.

Definition eq1 (v : obs) : bool :=          (* v == 1 *)
  match v with Present => true | _ => false end.

Definition eq0 (v : obs) : bool :=          (* v == 0 *)
  match v with Absent => true | _ => false end.

Definition label := string.

(** A pandas DataFrame: row labels, column labels and the row-major
    table of values. *)
Record DataFrame (A : Type) : Type := mkFrame {
  index   : list label;
  columns : list label;
  values  : list (list A)
}.

Definition nrows {A} (X : DataFrame A) : nat := length (values X).   (* shape[0] *)
Definition ncols {A} (X : DataFrame A) : nat := length (columns X).  (* shape[1] *)
Definition shape {A} (X : DataFrame A) : nat * nat := (nrows X, ncols X).

(** A frame is rectangular and carries one label per row. *)
Definition wf {A} (X : DataFrame A) : bool :=
  (length (index X) =? nrows X) &&
  forallb (fun row => length row =? ncols X) (values X).

(** ** Boolean masks *)

(** [sum(mask)] on a boolean Series. *)
Definition sumb (mask : list bool) : nat := length (filter (fun b => b) mask).

(** [(frame_or_series <test>).sum()] along one row or one column. *)
Definition countIf {A} (p : A -> bool) (l : list A) : nat := length (filter p l).

(** Boolean-mask selection [l[mask]]. *)
Fixpoint compress {A} (mask : list bool) (l : list A) : list A :=
  match mask, l with
  | b :: mask', x :: l' => if b then x :: compress mask' l' else compress mask' l'
  | _, _ => []
  end.

(** [X[mask]]: the rows where the mask holds. *)
Definition rowsWhere {A} (mask : list bool) (X : DataFrame A) : DataFrame A :=
  {| index := compress mask (index X);
     columns := columns X;
     values := compress mask (values X) |}.

(** [X.loc[:, mask]]: the columns where the mask holds. *)
Definition colsWhere {A} (mask : list bool) (X : DataFrame A) : DataFrame A :=
  {| index := index X;
     columns := compress mask (columns X);
     values := map (compress mask) (values X) |}.

(** Column [j] of the table, top to bottom. *)
Definition column (j : nat) (X : DataFrame obs) : list obs :=
  map (fun row => nth j row Missing) (values X).

(** [X[feature]]: the columns that carry the label [feature]. *)
Definition columnsNamed (feature : label) (X : DataFrame obs) : list (list obs) :=
  map (fun j => column j X)
      (filter (fun j => String.eqb (nth j (columns X) EmptyString) feature)
              (seq 0 (ncols X))).

(** No label occurs twice. *)
Fixpoint distinct (l : list label) : bool :=
  match l with
  | [] => true
  | x :: l' => negb (existsb (String.eqb x) l') && distinct l'
  end.

(** ** The filter: lines 37-46 *)

Section Filter.

Variables minPresence minMeasurementsPerCell : Z.

(** [(keptX>=0).sum(axis=1) >= minMeasurementsPerCell] *)
Definition selectCells (X : DataFrame obs) : list bool :=
  map (fun row => (minMeasurementsPerCell <=? Z.of_nat (countIf ge0 row))%Z)
      (values X).

(** [((Y==1).sum(axis=0) >= minPresence) & ((Y==0).sum(axis=0) > 0)] *)
Definition selectColumns (Y : DataFrame obs) : list bool :=
  map (fun j => (minPresence <=? Z.of_nat (countIf eq1 (column j Y)))%Z
                && (0 <? countIf eq0 (column j Y)))
      (seq 0 (ncols Y)).

(** The loop variables.  [selected] is [None] while [selectedCells]
    is still [None] (and [selectedColumns] unbound). *)
Record FilterState : Type := mkState {
  prev     : option (nat * nat);
  selected : option (list bool * list bool);
  keptX    : DataFrame obs
}.

Definition initState (X : DataFrame obs) : FilterState :=
  {| prev := None; selected := None; keptX := X |}.

(** The [while] condition of line 40.  [prev] is only assigned once
    [selectedCells] is set, so the last case does not arise. *)
Definition loopCond (st : FilterState) : bool :=
  match prev st, selected st with
  | None, _ => true
  | Some (p0, p1), Some (cells, cols) =>
      negb (p0 =? sumb cells) || negb (p1 =? sumb cols)
  | Some _, None => true
  end.

(** The loop body, lines 41-46. *)
Definition loopBody (st : FilterState) : FilterState :=
  let prev' := match selected st with
               | Some (cells, cols) => Some (sumb cells, sumb cols)
               | None => prev st
               end in
  let selectedCells := selectCells (keptX st) in
  let selectedColumns := selectColumns (rowsWhere selectedCells (keptX st)) in
  {| prev := prev';
     selected := Some (selectedCells, selectedColumns);
     keptX := colsWhere selectedColumns (rowsWhere selectedCells (keptX st)) |}.

(** The [while] loop; [fuel] bounds the number of tests of the
    condition. *)
Fixpoint whileLoop (fuel : nat) (st : FilterState) : option FilterState :=
  match fuel with
  | O => None
  | S fuel' => if loopCond st then whileLoop fuel' (loopBody st) else Some st
  end.

(** What one pass of the body does to the working matrix. *)
Definition filterStep (X : DataFrame obs) : DataFrame obs :=
  keptX (loopBody (initState X)).

(** The filter stage run on [X]: the final [keptX]. *)
Definition dataFilter (X : DataFrame obs) : option (DataFrame obs) :=
  option_map keptX (whileLoop (nrows X + ncols X + 3) (initState X)).

(** The working matrix, and the loop variables, after [k] passes of the
    body. *)
Definition filterIter (k : nat) (X : DataFrame obs) : DataFrame obs :=
  Nat.iter k filterStep X.

Definition loopIter (k : nat) (st : FilterState) : FilterState :=
  Nat.iter k loopBody st.

End Filter.

(** Order-preserving sub-sequence: what a boolean mask selects. *)
Inductive Subseq {A} : list A -> list A -> Prop :=
| Subseq_nil : Subseq [] []
| Subseq_skip x l1 l2 : Subseq l1 l2 -> Subseq l1 (x :: l2)
| Subseq_keep x l1 l2 : Subseq l1 l2 -> Subseq (x :: l1) (x :: l2).

(** ** Numeric arrays, lines 51-64 and 88-107 *)

Section Numeric.

Local Open Scope R_scope.

Definition log2 (x : R) : R := ln x / ln 2.             (* np.log2 *)

Definition b2R (b : bool) : R := if b then 1 else 0.    (* True, False as numbers *)

(** Element-wise operations on arrays of one length. *)
Fixpoint zipWith {A B C} (f : A -> B -> C) (u : list A) (v : list B) : list C :=
  match u, v with
  | x :: u', y :: v' => f x y :: zipWith f u' v'
  | _, _ => []
  end.

Definition vadd : list R -> list R -> list R := zipWith Rplus.
Definition vand : list bool -> list bool -> list bool := zipWith andb.  (* np.logical_and *)
Definition maskMul : list bool -> list R -> list R :=                   (* mask * array *)
  zipWith (fun b x => b2R b * x).
Definition mulMask : list R -> list bool -> list R :=                   (* array * mask *)
  zipWith (fun x b => x * b2R b).
Definition vsum (u : list R) : R := fold_right Rplus 0 u.               (* np.sum *)

(** One weight, lines 56-61: [test] is [column==1] or [column==0]. *)
Definition weightOf (weight : bool) (test : obs -> bool) (col : list obs) : R :=
  if weight
  then - log2 ((INR (countIf test col) / INR (length col)) ^ 2)
  else - log2 ((1 / 2) ^ 2).

(** The arrays [pOnes] and [pZeros], one entry per retained column.
    The column of a feature is read by position; this is
    [keptX[feature]] when the column labels are distinct. *)
Definition pOnesOf (weight : bool) (K : DataFrame obs) : list R :=
  map (fun j => weightOf weight eq1 (column j K)) (seq 0 (ncols K)).

Definition pZerosOf (weight : bool) (K : DataFrame obs) : list R :=
  map (fun j => weightOf weight eq0 (column j K)) (seq 0 (ncols K)).

Section Pair.

Variables pOnes pZeros : list R.
Variables a b : list obs.

(** Lines 88-90. *)
Definition pairwiseUnnormalizedDistance : list R :=
  vadd (maskMul (vand (map eq1 a) (map eq0 b)) (vadd pOnes pZeros))
       (maskMul (vand (map eq0 a) (map eq1 b)) (vadd pZeros pOnes)).

(** Lines 93-94. *)
Definition pairNormalisation : R :=
  vsum (mulMask pOnes (map eq1 a)) + vsum (mulMask pZeros (map eq0 a)) +
  vsum (mulMask pOnes (map eq1 b)) + vsum (mulMask pZeros (map eq0 b)).

(** Lines 96-97. *)
Definition pairwiseNormalizedDistance : R :=
  vsum pairwiseUnnormalizedDistance / pairNormalisation.

(** Lines 101-102. *)
Definition pairSim : R :=
  vsum (mulMask (vadd pOnes pOnes) (vand (map eq1 a) (map eq1 b))) +
  vsum (mulMask (vadd pZeros pZeros) (vand (map eq0 a) (map eq0 b))).

(** Line 104. *)
Definition normalisedSim : R := pairSim / pairNormalisation.

(** Line 107. *)
Definition joinedDistance : R :=
  pairwiseNormalizedDistance + (1 - normalisedSim).

End Pair.

End Numeric.

(** ** Square arrays and the two triangular loops, lines 73-118 *)

Definition matrix := list (list R).

Definition zeros (n : nat) : matrix := repeat (repeat 0%R n) n.   (* np.zeros((n, n)) *)

Fixpoint upd {A} (l : list A) (i : nat) (v : A) : list A :=
  match l, i with
  | [], _ => []
  | _ :: l', O => v :: l'
  | x :: l', S i' => x :: upd l' i' v
  end.

Definition mget (M : matrix) (i j : nat) : R := nth j (nth i M []) 0%R.   (* M[i, j] *)

(** [M[i, j] = v].  Every use below has [i] and [j] inside the array,
    where numpy does not raise. *)
Definition mset (M : matrix) (i j : nat) (v : R) : matrix :=
  upd M i (upd (nth i M []) j v).

(** [for j in js: body(j); if i == j: break] *)
Fixpoint untilDiag {St} (body : nat -> St -> St) (i : nat) (js : list nat) (st : St) : St :=
  match js with
  | [] => st
  | j :: js' =>
      let st' := body j st in
      if i =? j then st' else untilDiag body i js' st'
  end.

(** [for i in range(n): for j in range(n): body(i, j); if i == j: break] *)
Definition triLoop {St} (body : nat -> nat -> St -> St) (n : nat) (st : St) : St :=
  fold_left (fun st i => untilDiag (body i) i (seq 0 n) st) (seq 0 n) st.

(** The variables the pairwise loop assigns.  [normalisationFactor] is
    unbound until the first pair has been visited. *)
Record PairState : Type := mkPairs {
  simMatrix           : matrix;
  differenceMatrix    : matrix;
  jointMatrix         : matrix;
  normalisationFactor : option R
}.

Definition initPairs (n : nat) : PairState :=
  {| simMatrix := zeros n; differenceMatrix := zeros n; jointMatrix := zeros n;
     normalisationFactor := None |}.

(** The body of the pairwise loop, lines 82-108, at [(cai, cbi)]. *)
Definition pairBody (pOnes pZeros : list R) (rawMatrix : list (list obs))
    (cai cbi : nat) (st : PairState) : PairState :=
  let a := nth cai rawMatrix [] in
  let b := nth cbi rawMatrix [] in
  {| simMatrix := mset (simMatrix st) cai cbi (normalisedSim pOnes pZeros a b);
     differenceMatrix :=
       mset (differenceMatrix st) cai cbi (pairwiseNormalizedDistance pOnes pZeros a b);
     jointMatrix := mset (jointMatrix st) cai cbi (joinedDistance pOnes pZeros a b);
     normalisationFactor := Some (pairNormalisation pOnes pZeros a b) |}.

(** The body of the mirroring loop, line 116. *)
Definition mirrorBody (i j : nat) (M : matrix) : matrix :=
  mset M j i (mget M i j).

(** ** The whole function *)

Inductive exn : Type :=
| ValueError (msg : string)
| NameError (name : string).

Inductive outcome (A : Type) : Type :=
| Returns (a : A)
| Raises (e : exn)
| OutOfFuel.

Arguments Raises {A} e.
Arguments OutOfFuel {A}.

(** The returned 5-tuple. *)
Record Result : Type := mkResult {
  out_keptX               : DataFrame obs;
  out_jointMatrix         : DataFrame R;
  out_simMatrix           : DataFrame R;
  out_differenceMatrix    : DataFrame R;
  out_normalisationFactor : R
}.

(** [pd.DataFrame(M)] with [index] and [columns] set to [keptX.index]. *)
Definition labelled (K : DataFrame obs) (M : matrix) : DataFrame R :=
  {| index := index K; columns := index K; values := M |}.

Definition sparseDistance (X : DataFrame obs)
    (minPresence minMeasurementsPerCell : Z) (weight : bool) : outcome Result :=
  match dataFilter minPresence minMeasurementsPerCell X with
  | None => OutOfFuel
  | Some keptX =>
      if nrows keptX <? 2 then Raises (ValueError "Not enough data")
      else
        let pOnes := pOnesOf weight keptX in
        let pZeros := pZerosOf weight keptX in
        let rawMatrix := values keptX in
        let n := length rawMatrix in
        let st := triLoop (pairBody pOnes pZeros rawMatrix) n (initPairs n) in
        let joint := triLoop mirrorBody n (jointMatrix st) in
        match normalisationFactor st with
        | None => Raises (NameError "normalisationFactor")
        | Some nf =>
            Returns {| out_keptX := keptX;
                       out_jointMatrix := labelled keptX joint;
                       out_simMatrix := labelled keptX (simMatrix st);
                       out_differenceMatrix := labelled keptX (differenceMatrix st);
                       out_normalisationFactor := nf |}
        end
  end.

(** The pairs the triangular loop visits, in order. *)
Definition triPairs (n : nat) : list (nat * nat) :=
  flat_map (fun i => map (pair i) (seq 0 (S i))) (seq 0 n).

(** An [n] by [n] array. *)
Definition square (n : nat) (M : matrix) : Prop :=
  length M = n /\ forall row, In row M -> length row = n.

(** Entry [(i, j)] of the table of a frame. *)
Definition entry (K : DataFrame obs) (i j : nat) : obs :=
  nth j (nth i (values K) []) Missing.

Definition obs_eqb (u v : obs) : bool :=
  match u, v with
  | Present, Present | Absent, Absent | Missing, Missing => true
  | _, _ => false
  end.

(** The fraction of the rows of [K] whose entry for feature [j] is [v];
    the denominator is the full number of rows, missing entries
    included. *)
Definition fraction (v : obs) (K : DataFrame obs) (j : nat) : R :=
  (INR (length (filter (fun i => obs_eqb (entry K i j) v) (seq 0 (nrows K))))
   / INR (nrows K))%R.

(** The number of features on which two rows are both defined and
    differ, and on which they are both defined and agree. *)
Definition mismatches (a b : list obs) : nat :=
  sumb (zipWith (fun u v => (eq1 u && eq0 v) || (eq0 u && eq1 v)) a b).

Definition agreements (a b : list obs) : nat :=
  sumb (zipWith (fun u v => (eq1 u && eq1 v) || (eq0 u && eq0 v)) a b).

(** [K] is cut out of [X]: labels and rows of [K] are sub-sequences of
    those of [X]. *)
Definition subframe (K X : DataFrame obs) : Prop :=
  Subseq (index K) (index X) /\
  Subseq (columns K) (columns X) /\
  forall row, In row (values K) -> exists row0, In row0 (values X) /\ Subseq row row0.

(** ** Sample inputs *)

Section Samples.

Local Open Scope string_scope.

(** Four cells, three features: cell [c2] has no measurement and
    feature [f2] is never present. *)
Definition sampleSparse : DataFrame obs :=
  {| index := ["c0"; "c1"; "c2"; "c3"];
     columns := ["f0"; "f1"; "f2"];
     values := [[Present; Absent;  Missing];
                [Absent;  Present; Missing];
                [Missing; Missing; Missing];
                [Present; Present; Absent]] |}.

(** What the filter keeps of [sampleSparse] with both thresholds 1. *)
Definition sampleSparseKept : DataFrame obs :=
  {| index := ["c0"; "c1"; "c3"];
     columns := ["f0"; "f1"];
     values := [[Present; Absent];
                [Absent;  Present];
                [Present; Present]] |}.

(** Three cells, two features, nothing to remove. *)
Definition sampleDense : DataFrame obs :=
  {| index := ["c0"; "c1"; "c2"];
     columns := ["f0"; "f1"];
     values := [[Present; Absent];
                [Present; Present];
                [Absent;  Absent]] |}.

(** One cell, one feature. *)
Definition sampleSingle : DataFrame obs :=
  {| index := ["c0"]; columns := ["f0"]; values := [[Present]] |}.

(** Two cells whose only feature is present in both. *)
Definition sampleConstant : DataFrame obs :=
  {| index := ["c0"; "c1"]; columns := ["f0"];
     values := [[Present]; [Present]] |}.

(** What the filter keeps of [sampleConstant] when
    [minMeasurementsPerCell] is 0: both cells and no feature. *)
Definition sampleConstantKept : DataFrame obs :=
  {| index := ["c0"; "c1"]; columns := []; values := [[]; []] |}.

(** Two cells without any measurement. *)
Definition sampleMissing : DataFrame obs :=
  {| index := ["c0"; "c1"]; columns := ["f0"; "f1"];
     values := [[Missing; Missing]; [Missing; Missing]] |}.

(** Three cells, the first two with the same row. *)
Definition sampleTwin : DataFrame obs :=
  {| index := ["c0"; "c1"; "c2"];
     columns := ["f0"; "f1"];
     values := [[Present; Absent];
                [Present; Absent];
                [Absent;  Present]] |}.

(** The empty frame. *)
Definition sampleEmpty : DataFrame obs :=
  {| index := []; columns := []; values := [] |}.

End Samples.

Unset Implicit Arguments.

(** ** Basic facts on masks *)

Lemma sumb_le_length (m : list bool) : sumb m <= length m.
Proof. unfold sumb. apply filter_length_le. Qed.

Lemma sumb_full (m : list bool) :
  sumb m = length m -> forallb (fun b => b) m = true.
Proof.
  unfold sumb. induction m as [|b m IH]; simpl; [reflexivity|].
  destruct b; simpl; intro H.
  - apply IH. lia.
  - pose proof (filter_length_le (fun b => b) m). lia.
Qed.

Lemma sumb_all_true (m : list bool) :
  forallb (fun b => b) m = true -> sumb m = length m.
Proof.
  unfold sumb. induction m as [|b m IH]; simpl; [reflexivity|].
  destruct b; simpl; [|discriminate]. intro H. f_equal. auto.
Qed.

Lemma compress_length {A} (m : list bool) (l : list A) :
  length m = length l -> length (compress m l) = sumb m.
Proof.
  unfold sumb. revert l. induction m as [|b m IH]; intros [|x l]; simpl;
    try discriminate; try reflexivity.
  intro H. injection H as H. destruct b; simpl; rewrite IH; auto.
Qed.

Lemma compress_all {A} (m : list bool) (l : list A) :
  forallb (fun b => b) m = true -> length m = length l -> compress m l = l.
Proof.
  revert l. induction m as [|b m IH]; intros [|x l]; simpl;
    try discriminate; try reflexivity.
  destruct b; simpl; [|discriminate]. intros Ht H. f_equal. apply IH; auto.
Qed.

Lemma compress_length_le {A} (m : list bool) (l : list A) :
  length (compress m l) <= length l.
Proof.
  revert l. induction m as [|b m IH]; intros [|x l]; simpl; try lia.
  destruct b; simpl; specialize (IH l); lia.
Qed.

Lemma Subseq_nil_l {A} (l : list A) : Subseq [] l.
Proof. induction l; constructor; auto. Qed.

Lemma compress_Subseq {A} (m : list bool) (l : list A) :
  Subseq (compress m l) l.
Proof.
  revert l. induction m as [|b m IH]; intros [|x l]; simpl;
    try apply Subseq_nil_l.
  destruct b; constructor; apply IH.
Qed.

Lemma Subseq_refl {A} (l : list A) : Subseq l l.
Proof. induction l; [apply Subseq_nil | apply Subseq_keep; assumption]. Qed.

Lemma Subseq_trans {A} (l1 l2 l3 : list A) :
  Subseq l1 l2 -> Subseq l2 l3 -> Subseq l1 l3.
Proof.
  intros H12 H23. revert l1 H12.
  induction H23 as [|x l2 l3 H23 IH|x l2 l3 H23 IH]; intros l1 H12.
  - exact H12.
  - apply Subseq_skip. apply IH. exact H12.
  - inversion H12 as [|y l1' l2' H|y l1' l2' H]; subst.
    + apply Subseq_skip. apply IH. exact H.
    + apply Subseq_keep. apply IH. exact H.
Qed.

Lemma Subseq_In {A} (l1 l2 : list A) (x : A) :
  Subseq l1 l2 -> In x l1 -> In x l2.
Proof.
  intro H. induction H as [|y l1 l2 H IH|y l1 l2 H IH]; simpl; intro Hin; auto.
  destruct Hin as [E|Hin]; auto.
Qed.

Lemma Subseq_NoDup {A} (l1 l2 : list A) :
  Subseq l1 l2 -> NoDup l2 -> NoDup l1.
Proof.
  intro H. induction H as [|y l1 l2 H IH|y l1 l2 H IH]; intro Hnd.
  - exact Hnd.
  - inversion Hnd; subst. apply IH. assumption.
  - inversion Hnd as [|? ? Hnot Hnd']; subst. constructor.
    + intro Hin. apply Hnot. apply (Subseq_In l1 l2); assumption.
    + apply IH. exact Hnd'.
Qed.

(** ** Reading a column by its label *)

Lemma distinct_NoDup (l : list label) : distinct l = true -> NoDup l.
Proof.
  induction l as [|x l IH]; simpl; intro H; [constructor|].
  apply andb_true_iff in H. destruct H as [Hx Hl]. constructor.
  - intro Hin. apply negb_true_iff in Hx.
    assert (Hex : existsb (String.eqb x) l = true).
    { apply existsb_exists. exists x. split; [exact Hin | apply String.eqb_refl]. }
    congruence.
  - apply IH. exact Hl.
Qed.

Lemma filter_eqb_seq_above (j len : nat) :
  forall t, j < t -> filter (fun k => k =? j) (seq t len) = [].
Proof.
  induction len as [|len IH]; intros t Ht; [reflexivity|].
  simpl. destruct (t =? j) eqn:E; [apply Nat.eqb_eq in E; lia|].
  apply IH. lia.
Qed.

Lemma filter_eqb_seq (j len : nat) :
  forall s, s <= j < s + len -> filter (fun k => k =? j) (seq s len) = [j].
Proof.
  induction len as [|len IH]; intros s Hs; [lia|].
  simpl. destruct (s =? j) eqn:E.
  - apply Nat.eqb_eq in E. subst s. f_equal.
    apply filter_eqb_seq_above. lia.
  - apply Nat.eqb_neq in E. apply IH. lia.
Qed.

(** With distinct labels, looking a column up by its label finds the
    one column at its position. *)
Lemma columnsNamed_distinct (K : DataFrame obs) (j : nat) :
  NoDup (columns K) -> j < ncols K ->
  columnsNamed (nth j (columns K) EmptyString) K = [column j K].
Proof.
  intros Hnd Hj. unfold columnsNamed.
  rewrite (filter_ext_in _ (fun k => k =? j)).
  - rewrite filter_eqb_seq by (unfold ncols in *; lia). reflexivity.
  - intros k Hk. apply in_seq in Hk.
    destruct (k =? j) eqn:E.
    + apply Nat.eqb_eq in E. subst k. apply String.eqb_refl.
    + apply Nat.eqb_neq in E. apply String.eqb_neq. intro Heq. apply E.
      apply (proj1 (NoDup_nth (columns K) EmptyString) Hnd);
        unfold ncols in *; try lia. exact Heq.
Qed.

Lemma compress_In {A} (m : list bool) (l : list A) (x : A) :
  In x (compress m l) -> In x l.
Proof.
  revert l. induction m as [|b m IH]; intros [|y l]; simpl; try tauto.
  destruct b; simpl; intros H; [destruct H as [H|H]|]; auto.
Qed.

(** ** One pass of the filter *)

Section FilterFacts.

Variables mp mm : Z.

Lemma wf_spec (X : DataFrame obs) :
  wf X = true <->
  length (index X) = nrows X /\ (forall row, In row (values X) -> length row = ncols X).
Proof.
  unfold wf. rewrite andb_true_iff, Nat.eqb_eq, forallb_forall.
  split; intros [H1 H2]; split; auto; intros row Hr.
  - apply Nat.eqb_eq; auto.
  - apply Nat.eqb_eq; auto.
Qed.

Lemma selectCells_length (X : DataFrame obs) :
  length (selectCells mm X) = nrows X.
Proof. unfold selectCells, nrows. apply length_map. Qed.

Lemma selectColumns_length (Y : DataFrame obs) :
  length (selectColumns mp Y) = ncols Y.
Proof. unfold selectColumns. rewrite length_map, length_seq. reflexivity. Qed.

Lemma filterStep_eq (X : DataFrame obs) :
  filterStep mp mm X =
  colsWhere (selectColumns mp (rowsWhere (selectCells mm X) X))
            (rowsWhere (selectCells mm X) X).
Proof. reflexivity. Qed.

Lemma nrows_filterStep (X : DataFrame obs) :
  nrows (filterStep mp mm X) = sumb (selectCells mm X).
Proof.
  rewrite filterStep_eq. unfold nrows, colsWhere, rowsWhere; simpl.
  rewrite length_map. apply compress_length. apply selectCells_length.
Qed.

Lemma ncols_filterStep (X : DataFrame obs) :
  ncols (filterStep mp mm X) =
  sumb (selectColumns mp (rowsWhere (selectCells mm X) X)).
Proof.
  rewrite filterStep_eq. unfold ncols at 1, colsWhere; simpl.
  apply compress_length. rewrite selectColumns_length. reflexivity.
Qed.

Lemma nrows_filterStep_le (X : DataFrame obs) :
  nrows (filterStep mp mm X) <= nrows X.
Proof.
  rewrite nrows_filterStep, <- (selectCells_length X). apply sumb_le_length.
Qed.

Lemma ncols_filterStep_le (X : DataFrame obs) :
  ncols (filterStep mp mm X) <= ncols X.
Proof.
  rewrite ncols_filterStep.
  etransitivity; [apply sumb_le_length|].
  rewrite selectColumns_length. reflexivity.
Qed.

Lemma wf_filterStep (X : DataFrame obs) :
  wf X = true -> wf (filterStep mp mm X) = true.
Proof.
  intro H. apply wf_spec in H. destruct H as [Hi Hr].
  apply wf_spec. split.
  - rewrite nrows_filterStep. rewrite filterStep_eq; simpl.
    apply compress_length. rewrite selectCells_length. symmetry. exact Hi.
  - intros row Hin. rewrite ncols_filterStep.
    rewrite filterStep_eq in Hin; simpl in Hin.
    apply in_map_iff in Hin. destruct Hin as [row0 [<- Hin]].
    apply compress_In in Hin.
    apply compress_length. rewrite selectColumns_length.
    symmetry. apply Hr. exact Hin.
Qed.

(** A pass that keeps both counts keeps the matrix, and then every row
    and every column passes its test. *)
Lemma filterStep_same_shape (X : DataFrame obs) :
  wf X = true ->
  shape (filterStep mp mm X) = shape X ->
  filterStep mp mm X = X /\
  forallb (fun b => b) (selectCells mm X) = true /\
  forallb (fun b => b) (selectColumns mp X) = true.
Proof.
  intros Hwf Hs. unfold shape in Hs. injection Hs as Hn Hc.
  rewrite nrows_filterStep in Hn. rewrite ncols_filterStep in Hc.
  assert (Hcells : forallb (fun b => b) (selectCells mm X) = true).
  { apply sumb_full. rewrite Hn. symmetry. apply selectCells_length. }
  apply wf_spec in Hwf. destruct Hwf as [Hi Hr].
  assert (Hrows : rowsWhere (selectCells mm X) X = X).
  { unfold rowsWhere. destruct X as [ix cs vs]; simpl in *. f_equal.
    - apply compress_all; auto. rewrite selectCells_length. auto.
    - apply compress_all; auto. rewrite selectCells_length. reflexivity. }
  rewrite Hrows in Hc.
  assert (Hcols : forallb (fun b => b) (selectColumns mp X) = true).
  { apply sumb_full. rewrite Hc. symmetry. apply selectColumns_length. }
  repeat split; auto.
  rewrite filterStep_eq, Hrows. unfold colsWhere.
  destruct X as [ix cs vs]; simpl in *. f_equal.
  - apply compress_all; auto. rewrite selectColumns_length. reflexivity.
  - transitivity (map (fun row : list obs => row) vs); [|apply map_id].
    apply map_ext_in. intros row Hin.
    apply compress_all; auto. rewrite selectColumns_length.
    symmetry. apply Hr. exact Hin.
Qed.

Lemma filterStep_smaller (X : DataFrame obs) :
  shape (filterStep mp mm X) <> shape X ->
  nrows (filterStep mp mm X) + ncols (filterStep mp mm X) < nrows X + ncols X.
Proof.
  intro H. pose proof (nrows_filterStep_le X). pose proof (ncols_filterStep_le X).
  unfold shape in H.
  destruct (Nat.eq_dec (nrows (filterStep mp mm X)) (nrows X)) as [E1|E1];
    destruct (Nat.eq_dec (ncols (filterStep mp mm X)) (ncols X)) as [E2|E2];
    try lia.
  exfalso. apply H. rewrite E1, E2. reflexivity.
Qed.

Lemma shape_eq_dec (X Y : DataFrame obs) : {shape X = shape Y} + {shape X <> shape Y}.
Proof. unfold shape. decide equality; apply Nat.eq_dec. Qed.

(** ** The iterates of a pass *)

Lemma filterIter_S (k : nat) (X : DataFrame obs) :
  filterIter mp mm (S k) X = filterIter mp mm k (filterStep mp mm X).
Proof. unfold filterIter. apply Nat.iter_succ_r. Qed.

Lemma filterIter_fixed (k : nat) (X : DataFrame obs) :
  filterStep mp mm X = X -> filterIter mp mm k X = X.
Proof.
  intro H. unfold filterIter. induction k as [|k IH]; simpl; [reflexivity|].
  rewrite IH. exact H.
Qed.

Lemma wf_filterIter (k : nat) (X : DataFrame obs) :
  wf X = true -> wf (filterIter mp mm k X) = true.
Proof.
  intro H. unfold filterIter. induction k as [|k IH]; simpl; [exact H|].
  apply wf_filterStep. exact IH.
Qed.

Lemma keptX_loopBody (st : FilterState) :
  keptX (loopBody mp mm st) = filterStep mp mm (keptX st).
Proof. reflexivity. Qed.

Lemma keptX_loopIter (k : nat) (X : DataFrame obs) :
  keptX (loopIter mp mm k (initState X)) = filterIter mp mm k X.
Proof.
  unfold loopIter, filterIter. induction k as [|k IH]; [reflexivity|].
  rewrite !Nat.iter_succ, keptX_loopBody, IH. reflexivity.
Qed.

Lemma loopIter_S (k : nat) (st : FilterState) :
  loopIter mp mm (S k) st = loopIter mp mm k (loopBody mp mm st).
Proof. unfold loopIter. apply Nat.iter_succ_r. Qed.

(** ** The loop *)

(** The loop from a state reached after at least one pass: it stops
    after at most [n + 1] further passes, on a matrix that a pass leaves
    as it is. *)
Lemma whileLoop_later (n : nat) :
  forall (fuel : nat) (st : FilterState),
    wf (keptX st) = true ->
    (exists cells cols, selected st = Some (cells, cols) /\
        sumb cells = nrows (keptX st) /\ sumb cols = ncols (keptX st)) ->
    (prev st = None \/
     exists Xp, wf Xp = true /\ prev st = Some (shape Xp) /\
                keptX st = filterStep mp mm Xp) ->
    nrows (keptX st) + ncols (keptX st) <= n ->
    n + 2 <= fuel ->
    exists k,
      k <= n + 1 /\ (prev st = None -> 1 <= k) /\
      (filterStep mp mm (keptX st) = keptX st -> k <= 1) /\
      whileLoop mp mm fuel st = Some (loopIter mp mm k st) /\
      filterStep mp mm (keptX (loopIter mp mm k st)) = keptX (loopIter mp mm k st) /\
      keptX (loopIter mp mm k st) = filterIter mp mm n (keptX st).
Proof.
  induction n as [n IH] using lt_wf_ind.
  intros fuel st Hwf Hsel Hprev Hn Hfuel.
  destruct fuel as [|fuel]; [lia|].
  destruct Hsel as [cells [cols [Hsel [Hcells Hcols]]]].
  simpl whileLoop.
  destruct (loopCond st) eqn:Hcond.
  2:{ (* the test fails: the previous pass kept both counts *)
    exists 0. unfold loopCond in Hcond. rewrite Hsel in Hcond.
    destruct Hprev as [Hp|[Xp [HwfXp [Hp HX]]]]; rewrite Hp in Hcond;
      [discriminate|].
    simpl in Hcond.
    apply orb_false_iff in Hcond. destruct Hcond as [H1 H2].
    apply negb_false_iff, Nat.eqb_eq in H1.
    apply negb_false_iff, Nat.eqb_eq in H2.
    assert (Hfix : filterStep mp mm Xp = Xp).
    { apply filterStep_same_shape; [exact HwfXp|].
      rewrite <- HX. unfold shape. congruence. }
    assert (HfixX : filterStep mp mm (keptX st) = keptX st) by congruence.
    change (loopIter mp mm 0 st) with st.
    split; [lia|]. split; [intro; congruence|]. split; [intro; lia|].
    split; [reflexivity|].
    split; [exact HfixX|]. symmetry. apply filterIter_fixed. exact HfixX. }
  set (st1 := loopBody mp mm st).
  assert (Hwf1 : wf (keptX st1) = true) by (apply wf_filterStep; exact Hwf).
  assert (HX1 : keptX st1 = filterStep mp mm (keptX st)) by reflexivity.
  assert (Hsel1 : exists cells1 cols1, selected st1 = Some (cells1, cols1) /\
          sumb cells1 = nrows (keptX st1) /\ sumb cols1 = ncols (keptX st1)).
  { eexists; eexists; split; [reflexivity|]. rewrite HX1. split;
      [symmetry; apply nrows_filterStep | symmetry; apply ncols_filterStep]. }
  assert (Hprev1 : prev st1 = Some (shape (keptX st))).
  { unfold st1, loopBody; simpl. rewrite Hsel. unfold shape. congruence. }
  destruct (shape_eq_dec (keptX st1) (keptX st)) as [Hsame|Hdiff].
  - (* this pass removes nothing: the next test stops the loop *)
    exists 1.
    assert (Hfix : filterStep mp mm (keptX st) = keptX st).
    { apply filterStep_same_shape; [exact Hwf|]. rewrite <- HX1. exact Hsame. }
    assert (Hcond1 : loopCond st1 = false).
    { destruct Hsel1 as [c1 [c2 [Hs1 [Hc1 Hc2]]]].
      unfold loopCond. rewrite Hprev1, Hs1. unfold shape.
      rewrite Hc1, Hc2.
      pose proof (f_equal fst Hsame) as E1. pose proof (f_equal snd Hsame) as E2.
      unfold shape in E1, E2. cbn [fst snd] in E1, E2.
      rewrite E1, E2, !Nat.eqb_refl. reflexivity. }
    destruct fuel as [|fuel]; [lia|]. simpl whileLoop. rewrite Hcond1.
    change (loopIter mp mm 1 st) with st1.
    rewrite HX1, Hfix.
    split; [lia|]. split; [intro; lia|]. split; [intro; lia|].
    split; [reflexivity|].
    split; [exact Hfix|]. symmetry. apply filterIter_fixed. exact Hfix.
  - (* this pass removes a row or a column *)
    assert (Hnot : filterStep mp mm (keptX st) <> keptX st).
    { intro E. apply Hdiff. rewrite HX1, E. reflexivity. }
    rewrite HX1 in Hdiff. apply filterStep_smaller in Hdiff. rewrite <- HX1 in Hdiff.
    destruct n as [|n]; [lia|].
    destruct (IH n (Nat.lt_succ_diag_r n) fuel st1 Hwf1 Hsel1)
      as [k [Hk [_ [_ [Hrun [Hfix Hiter]]]]]].
    + right. exists (keptX st). repeat split; auto.
    + lia.
    + lia.
    + exists (S k). rewrite loopIter_S. fold st1.
      split; [lia|]. split; [intro; lia|]. split; [intro; contradiction|].
      split; [exact Hrun|]. split; [exact Hfix|].
      rewrite Hiter, filterIter_S, HX1. reflexivity.
Qed.

(** The loop from the start: it runs at least two passes, stops, and
    ends on the matrix reached after [rows + columns] passes. *)
Lemma whileLoop_run (X : DataFrame obs) :
  wf X = true ->
  exists k,
    2 <= k /\ k <= Nat.max 2 (nrows X + ncols X + 1) /\
    whileLoop mp mm (nrows X + ncols X + 3) (initState X)
      = Some (loopIter mp mm k (initState X)) /\
    filterStep mp mm (filterIter mp mm (nrows X + ncols X) X)
      = filterIter mp mm (nrows X + ncols X) X /\
    keptX (loopIter mp mm k (initState X)) = filterIter mp mm (nrows X + ncols X) X.
Proof.
  intro Hwf.
  replace (nrows X + ncols X + 3) with (S (nrows X + ncols X + 2)) by lia.
  simpl whileLoop. change (loopCond (initState X)) with true. cbv iota.
  set (st1 := loopBody mp mm (initState X)).
  assert (HX1 : keptX st1 = filterStep mp mm X) by reflexivity.
  assert (Hwf1 : wf (keptX st1) = true) by (rewrite HX1; apply wf_filterStep; exact Hwf).
  assert (Hsel1 : exists cells1 cols1, selected st1 = Some (cells1, cols1) /\
          sumb cells1 = nrows (keptX st1) /\ sumb cols1 = ncols (keptX st1)).
  { eexists; eexists; split; [reflexivity|]. rewrite HX1. split;
      [symmetry; apply nrows_filterStep | symmetry; apply ncols_filterStep]. }
  assert (Hprev1 : prev st1 = None) by reflexivity.
  pose proof (nrows_filterStep_le X) as Hr. pose proof (ncols_filterStep_le X) as Hc.
  destruct (shape_eq_dec (filterStep mp mm X) X) as [Hsame|Hdiff].
  - assert (Hfix : filterStep mp mm X = X) by (apply filterStep_same_shape; auto).
    destruct (whileLoop_later (nrows X + ncols X) (nrows X + ncols X + 2)
                st1 Hwf1 Hsel1 (or_introl Hprev1))
      as [k [_ [Hk1 [Hk2 [Hrun [Hfx Hiter]]]]]]; [rewrite HX1; lia | lia |].
    exists (S k). rewrite loopIter_S. fold st1.
    assert (k <= 1) by (apply Hk2; rewrite HX1, Hfix; exact Hfix).
    specialize (Hk1 Hprev1).
    split; [lia|]. split; [lia|]. split; [exact Hrun|].
    rewrite Hiter, HX1, Hfix, filterIter_fixed by exact Hfix.
    split; [exact Hfix | reflexivity].
  - apply filterStep_smaller in Hdiff.
    destruct (nrows X + ncols X) as [|n] eqn:Hsize; [lia|].
    destruct (whileLoop_later n (S n + 2)
                st1 Hwf1 Hsel1 (or_introl Hprev1))
      as [k [Hk0 [Hk1 [_ [Hrun [Hfx Hiter]]]]]]; [rewrite HX1; lia | lia |].
    exists (S k). rewrite loopIter_S. fold st1.
    specialize (Hk1 Hprev1).
    split; [lia|]. split; [lia|]. split; [exact Hrun|].
    rewrite filterIter_S, <- HX1, <- Hiter.
    split; [exact Hfx | reflexivity].
Qed.

Lemma dataFilter_eq (X : DataFrame obs) :
  wf X = true ->
  dataFilter mp mm X = Some (filterIter mp mm (nrows X + ncols X) X).
Proof.
  intro Hwf. destruct (whileLoop_run X Hwf) as [k [_ [_ [Hrun [_ Hk]]]]].
  unfold dataFilter. rewrite Hrun. simpl. rewrite Hk. reflexivity.
Qed.

Lemma dataFilter_fixed (X K : DataFrame obs) :
  wf X = true -> dataFilter mp mm X = Some K ->
  wf K = true /\ filterStep mp mm K = K.
Proof.
  intros Hwf HK. rewrite (dataFilter_eq X Hwf) in HK. injection HK as <-.
  split; [apply wf_filterIter; exact Hwf|].
  destruct (whileLoop_run X Hwf) as [k [_ [_ [_ [Hfix _]]]]]. exact Hfix.
Qed.

(** At a matrix that a pass leaves as it is, every row and every column
    passes its test. *)
Lemma filterStep_fixed_tests (K : DataFrame obs) :
  wf K = true -> filterStep mp mm K = K ->
  (forall row, In row (values K) ->
     (mm <= Z.of_nat (countIf ge0 row))%Z) /\
  (forall j, j < ncols K ->
     (mp <= Z.of_nat (countIf eq1 (column j K)))%Z /\
     1 <= countIf eq0 (column j K)).
Proof.
  intros Hwf Hfix.
  destruct (filterStep_same_shape K Hwf) as [_ [Hcells Hcols]];
    [rewrite Hfix; reflexivity|].
  rewrite forallb_forall in Hcells, Hcols. split.
  - intros row Hin. apply Z.leb_le. apply Hcells.
    unfold selectCells. apply in_map_iff. exists row. split; [reflexivity|exact Hin].
  - intros j Hj.
    assert (Hin : In ((mp <=? Z.of_nat (countIf eq1 (column j K)))%Z
                      && (0 <? countIf eq0 (column j K))) (selectColumns mp K)).
    { unfold selectColumns. apply in_map_iff. exists j. split; [reflexivity|].
      apply in_seq. lia. }
    apply Hcols in Hin. apply andb_true_iff in Hin. destruct Hin as [H1 H0].
    apply Z.leb_le in H1. apply Nat.ltb_lt in H0. split; [exact H1 | lia].
Qed.

Lemma index_filterStep (X : DataFrame obs) :
  Subseq (index (filterStep mp mm X)) (index X).
Proof. rewrite filterStep_eq. simpl. apply compress_Subseq. Qed.

Lemma columns_filterStep (X : DataFrame obs) :
  Subseq (columns (filterStep mp mm X)) (columns X).
Proof. rewrite filterStep_eq. simpl. apply compress_Subseq. Qed.

Lemma columns_filterIter (k : nat) (X : DataFrame obs) :
  Subseq (columns (filterIter mp mm k X)) (columns X).
Proof.
  induction k as [|k IH]; [apply Subseq_refl|].
  change (filterIter mp mm (S k) X) with (filterStep mp mm (filterIter mp mm k X)).
  eapply Subseq_trans; [apply columns_filterStep | exact IH].
Qed.

(** The filter keeps the column labels distinct. *)
Lemma dataFilter_columns_distinct (X K : DataFrame obs) :
  wf X = true -> distinct (columns X) = true ->
  dataFilter mp mm X = Some K -> NoDup (columns K).
Proof.
  intros Hwf Hd HK. rewrite (dataFilter_eq X Hwf) in HK. injection HK as <-.
  apply (Subseq_NoDup _ (columns X)); [apply columns_filterIter|].
  apply distinct_NoDup. exact Hd.
Qed.

End FilterFacts.

Lemma ge0_nonmissing (v : obs) : ge0 v = true <-> v <> Missing.
Proof. destruct v; simpl; split; congruence. Qed.

(** ** Running the filter on the samples *)

Example dataFilter_sampleSparse :
  dataFilter 1 1 sampleSparse = Some sampleSparseKept.
Proof. vm_compute. reflexivity. Qed.

Example dataFilter_sampleDense :
  dataFilter 1 1 sampleDense = Some sampleDense.
Proof. vm_compute. reflexivity. Qed.

(** On [sampleSingle] the first pass drops the feature, the second the
    cell, and a third pass is needed to see that nothing changes. *)
Example whileLoop_sampleSingle :
  whileLoop 1 1 3 (initState sampleSingle) = None /\
  whileLoop 1 1 4 (initState sampleSingle)
    = Some (loopIter 1 1 3 (initState sampleSingle)) /\
  filterIter 1 1 2 sampleSingle = filterIter 1 1 3 sampleSingle.
Proof. vm_compute. repeat split. Qed.

(** ** The filter stage: the claims *)

(** C5.  The matrix the filter returns satisfies the selection tests on
    itself: every retained row has at least [minMeasurementsPerCell]
    non-missing entries among the retained columns, and every retained
    column has, among the retained rows, at least [minPresence] entries
    Present and at least one entry Absent.  (This holds for all
    thresholds, in particular for thresholds of at least 1.) *)
Theorem filtered_matrix_invariant (X K : DataFrame obs) (mp mm : Z) :
  wf X = true ->
  dataFilter mp mm X = Some K ->
  (forall row, In row (values K) ->
     (mm <= Z.of_nat (countIf ge0 row))%Z) /\
  (forall j, j < ncols K ->
     (mp <= Z.of_nat (countIf eq1 (column j K)))%Z /\
     1 <= countIf eq0 (column j K)).
Proof.
  intros Hwf HK.
  destruct (dataFilter_fixed mp mm X K Hwf HK) as [HwfK Hfix].
  apply filterStep_fixed_tests; assumption.
Qed.

Lemma filtered_matrix_invariant_witness :
  wf sampleSparse = true /\
  dataFilter 1 1 sampleSparse = Some sampleSparseKept /\
  ((forall row, In row (values sampleSparseKept) ->
      (1 <= Z.of_nat (countIf ge0 row))%Z) /\
   (forall j, j < ncols sampleSparseKept ->
      (1 <= Z.of_nat (countIf eq1 (column j sampleSparseKept)))%Z /\
      1 <= countIf eq0 (column j sampleSparseKept))).
Proof.
  split; [reflexivity|]. split; [vm_compute; reflexivity|].
  apply (filtered_matrix_invariant sampleSparse sampleSparseKept 1 1).
  - reflexivity.
  - vm_compute; reflexivity.
Defined.

(** C6.  The filter loop terminates on every matrix.  Each pass keeps a
    sub-sequence of the rows and of the columns of the pass before, so
    both counts never grow; the working matrix after [rows + columns]
    passes is one that a further pass leaves unchanged, and it is the
    matrix the loop returns.  (The loop itself runs [k] passes with
    [2 <= k <= max 2 (rows + columns + 1)]: the exit test needs one more
    pass to see that the counts have stopped changing.) *)
Theorem filter_loop_terminates (X : DataFrame obs) (mp mm : Z) :
  wf X = true ->
  (forall k,
     Subseq (index (filterIter mp mm (S k) X)) (index (filterIter mp mm k X)) /\
     Subseq (columns (filterIter mp mm (S k) X)) (columns (filterIter mp mm k X)) /\
     nrows (filterIter mp mm (S k) X) <= nrows (filterIter mp mm k X) /\
     ncols (filterIter mp mm (S k) X) <= ncols (filterIter mp mm k X)) /\
  (exists k,
     2 <= k <= Nat.max 2 (nrows X + ncols X + 1) /\
     whileLoop mp mm (nrows X + ncols X + 3) (initState X)
       = Some (loopIter mp mm k (initState X)) /\
     keptX (loopIter mp mm k (initState X))
       = filterIter mp mm (nrows X + ncols X) X) /\
  filterStep mp mm (filterIter mp mm (nrows X + ncols X) X)
    = filterIter mp mm (nrows X + ncols X) X /\
  dataFilter mp mm X = Some (filterIter mp mm (nrows X + ncols X) X).
Proof.
  intro Hwf. split; [|split; [|split]].
  - intro k. change (filterIter mp mm (S k) X)
      with (filterStep mp mm (filterIter mp mm k X)).
    repeat split.
    + apply index_filterStep.
    + apply columns_filterStep.
    + apply nrows_filterStep_le.
    + apply ncols_filterStep_le.
  - destruct (whileLoop_run mp mm X Hwf) as [k [H2 [Hk [Hrun [_ Hkept]]]]].
    exists k. repeat split; assumption.
  - destruct (whileLoop_run mp mm X Hwf) as [k [_ [_ [_ [Hfix _]]]]]. exact Hfix.
  - apply dataFilter_eq. exact Hwf.
Qed.

Lemma filter_loop_terminates_witness :
  wf sampleSparse = true /\
  dataFilter 1 1 sampleSparse = Some (filterIter 1 1 (4 + 3) sampleSparse).
Proof.
  split; [reflexivity|].
  apply (filter_loop_terminates sampleSparse 1 1). reflexivity.
Defined.

(** C7.  Filtering is idempotent: the filter run on its own output,
    with the same thresholds, returns that output unchanged. *)
Theorem filter_idempotent (X : DataFrame obs) (mp mm : Z) :
  wf X = true ->
  exists K, dataFilter mp mm X = Some K /\ dataFilter mp mm K = Some K.
Proof.
  intro Hwf. exists (filterIter mp mm (nrows X + ncols X) X).
  pose proof (dataFilter_eq mp mm X Hwf) as HK. split; [exact HK|].
  destruct (dataFilter_fixed mp mm X _ Hwf HK) as [HwfK Hfix].
  rewrite (dataFilter_eq mp mm _ HwfK).
  rewrite filterIter_fixed by exact Hfix. reflexivity.
Qed.

Lemma filter_idempotent_witness :
  wf sampleSparse = true /\
  exists K, dataFilter 1 1 sampleSparse = Some K /\ dataFilter 1 1 K = Some K.
Proof.
  split; [reflexivity|].
  apply (filter_idempotent sampleSparse 1 1). reflexivity.
Defined.

(** ** Arrays updated in place *)

Lemma upd_length {A} (l : list A) (i : nat) (v : A) :
  length (upd l i v) = length l.
Proof.
  revert i. induction l as [|x l IH]; intros [|i]; simpl; auto.
Qed.

Lemma nth_upd {A} (l : list A) (i k : nat) (v d : A) :
  i < length l ->
  nth k (upd l i v) d = if k =? i then v else nth k l d.
Proof.
  revert i k. induction l as [|x l IH]; intros i k Hi; simpl in Hi; [lia|].
  destruct i as [|i]; destruct k as [|k]; simpl; auto.
  apply IH. lia.
Qed.

Lemma In_upd {A} (l : list A) (i : nat) (v x : A) :
  In x (upd l i v) -> x = v \/ In x l.
Proof.
  revert i. induction l as [|y l IH]; intros [|i]; simpl; try tauto.
  - intros [H|H]; auto.
  - intros [H|H]; auto. destruct (IH i H); auto.
Qed.

Lemma square_zeros (n : nat) : square n (zeros n).
Proof.
  unfold square, zeros. split; [apply repeat_length|].
  intros row Hin. apply repeat_spec in Hin. subst row. apply repeat_length.
Qed.

Lemma square_row (n : nat) (M : matrix) (i : nat) :
  square n M -> i < n -> length (nth i M []) = n.
Proof.
  intros [Hl Hr] Hi. apply Hr. apply nth_In. lia.
Qed.

Lemma square_mset (n : nat) (M : matrix) (i j : nat) (v : R) :
  square n M -> i < n -> square n (mset M i j v).
Proof.
  intros HM Hi. pose proof (square_row n M i HM Hi) as Hrow.
  destruct HM as [Hl Hr]. unfold mset. split.
  - rewrite upd_length. exact Hl.
  - intros row Hin. apply In_upd in Hin. destruct Hin as [->|Hin]; auto.
    rewrite upd_length. exact Hrow.
Qed.

Lemma mget_mset (n : nat) (M : matrix) (i j i' j' : nat) (v : R) :
  square n M -> i < n -> j < n ->
  mget (mset M i j v) i' j' =
  if (i' =? i) && (j' =? j) then v else mget M i' j'.
Proof.
  intros HM Hi Hj. pose proof (square_row n M i HM Hi) as Hrow.
  destruct HM as [Hl Hr]. unfold mget, mset.
  rewrite nth_upd by lia.
  destruct (i' =? i) eqn:Ei; simpl; [|reflexivity].
  apply Nat.eqb_eq in Ei. subst i'.
  rewrite nth_upd by lia. reflexivity.
Qed.

(** ** The triangular loop as a fold over the visited pairs *)

Lemma untilDiag_seq {St} (body : nat -> St -> St) (i len : nat) :
  forall (s : nat) (st : St),
    s <= i < s + len ->
    untilDiag body i (seq s len) st =
    fold_left (fun st j => body j st) (seq s (S i - s)) st.
Proof.
  induction len as [|len IH]; intros s st Hs; [lia|].
  simpl untilDiag. destruct (i =? s) eqn:E.
  - apply Nat.eqb_eq in E. subst s.
    replace (S i - i) with 1 by lia. reflexivity.
  - apply Nat.eqb_neq in E.
    rewrite IH by lia.
    replace (S i - s) with (S (S i - S s)) by lia.
    reflexivity.
Qed.

Lemma fold_left_ext_in {A B} (f g : A -> B -> A) (l : list B) :
  (forall a x, In x l -> f a x = g a x) ->
  forall a, fold_left f l a = fold_left g l a.
Proof.
  induction l as [|x l IH]; intros H a; simpl; [reflexivity|].
  rewrite H by (left; reflexivity). apply IH.
  intros a' y Hy. apply H. right. exact Hy.
Qed.

Lemma fold_left_map {A B C} (f : A -> C -> A) (h : B -> C) (l : list B) :
  forall a, fold_left f (map h l) a = fold_left (fun a x => f a (h x)) l a.
Proof. induction l as [|x l IH]; intro a; simpl; auto. Qed.

Lemma fold_left_flat_map {A B C} (f : A -> C -> A) (g : B -> list C) (l : list B) :
  forall a,
    fold_left f (flat_map g l) a = fold_left (fun a x => fold_left f (g x) a) l a.
Proof.
  induction l as [|x l IH]; intro a; simpl; [reflexivity|].
  rewrite fold_left_app. apply IH.
Qed.

Lemma triLoop_pairs {St} (body : nat -> nat -> St -> St) (n : nat) (st : St) :
  triLoop body n st =
  fold_left (fun st p => body (fst p) (snd p) st) (triPairs n) st.
Proof.
  unfold triLoop, triPairs. rewrite fold_left_flat_map.
  apply fold_left_ext_in. intros a i Hi. apply in_seq in Hi.
  rewrite untilDiag_seq by lia. rewrite Nat.sub_0_r.
  rewrite fold_left_map. reflexivity.
Qed.

Lemma In_triPairs (n i j : nat) : In (i, j) (triPairs n) <-> j <= i < n.
Proof.
  unfold triPairs. rewrite in_flat_map. split.
  - intros [k [Hk Hin]]. apply in_seq in Hk. apply in_map_iff in Hin.
    destruct Hin as [j' [E Hj']]. injection E as -> ->. apply in_seq in Hj'. lia.
  - intros H. exists i. split; [apply in_seq; lia|].
    apply in_map_iff. exists j. split; [reflexivity|]. apply in_seq. lia.
Qed.

Lemma triPairs_S (n : nat) :
  triPairs (S n) = triPairs n ++ map (pair n) (seq 0 n) ++ [(n, n)].
Proof.
  unfold triPairs. rewrite seq_S, flat_map_app. cbn [flat_map Nat.add].
  rewrite app_nil_r. f_equal.
  rewrite seq_S, map_app. reflexivity.
Qed.

(** ** Filling an array pair by pair *)

Lemma natpair_eq_dec (p q : nat * nat) : {p = q} + {p <> q}.
Proof. decide equality; apply Nat.eq_dec. Qed.

Lemma mget_zeros (n i j : nat) : mget (zeros n) i j = 0%R.
Proof.
  unfold mget, zeros.
  destruct (Nat.lt_ge_cases i n) as [Hi|Hi].
  - rewrite (nth_indep _ [] (repeat 0%R n)) by (rewrite repeat_length; exact Hi).
    rewrite nth_repeat. apply nth_repeat.
  - rewrite (nth_overflow _ []) by (rewrite repeat_length; exact Hi).
    destruct j; reflexivity.
Qed.

(** Writing [F i j] at every pair [(i, j)] of a list. *)
Lemma fill_spec (n : nat) (F : nat -> nat -> R) (l : list (nat * nat)) :
  (forall p, In p l -> fst p < n /\ snd p < n) ->
  forall M, square n M ->
    square n (fold_left (fun M p => mset M (fst p) (snd p) (F (fst p) (snd p))) l M) /\
    forall i j,
      (In (i, j) l ->
       mget (fold_left (fun M p => mset M (fst p) (snd p) (F (fst p) (snd p))) l M) i j
         = F i j) /\
      (~ In (i, j) l ->
       mget (fold_left (fun M p => mset M (fst p) (snd p) (F (fst p) (snd p))) l M) i j
         = mget M i j).
Proof.
  induction l as [|p l IH]; intros Hl M HM.
  - simpl. split; [exact HM|]. intros i j. split; [intros []|reflexivity].
  - destruct (Hl p (or_introl eq_refl)) as [Hp1 Hp2].
    assert (Hl' : forall q, In q l -> fst q < n /\ snd q < n)
      by (intros q Hq; apply Hl; right; exact Hq).
    simpl fold_left.
    destruct (IH Hl' _ (square_mset n M (fst p) (snd p) (F (fst p) (snd p)) HM Hp1))
      as [Hsq Hpt].
    split; [exact Hsq|]. intros i j. destruct (Hpt i j) as [Hin Hnot].
    destruct (in_dec natpair_eq_dec (i, j) l) as [Hd|Hd].
    + split; [intros _; apply Hin; exact Hd|].
      intros Hn. exfalso. apply Hn. right. exact Hd.
    + rewrite (Hnot Hd). rewrite (mget_mset n M _ _ i j _ HM Hp1 Hp2).
      split.
      * intros [E|E]; [|contradiction]. subst p. simpl.
        rewrite !Nat.eqb_refl. reflexivity.
      * intros Hn.
        destruct (i =? fst p) eqn:E1; destruct (j =? snd p) eqn:E2; simpl; auto.
        apply Nat.eqb_eq in E1, E2. exfalso. apply Hn. left.
        destruct p; simpl in *; congruence.
Qed.

(** The three arrays of the pairwise loop are filled independently. *)
Lemma pairBody_fold (pOnes pZeros : list R) (raw : list (list obs))
    (l : list (nat * nat)) :
  forall st,
    simMatrix (fold_left (fun st p => pairBody pOnes pZeros raw (fst p) (snd p) st) l st)
    = fold_left (fun M p => mset M (fst p) (snd p)
                   (normalisedSim pOnes pZeros (nth (fst p) raw []) (nth (snd p) raw [])))
        l (simMatrix st) /\
    differenceMatrix
      (fold_left (fun st p => pairBody pOnes pZeros raw (fst p) (snd p) st) l st)
    = fold_left (fun M p => mset M (fst p) (snd p)
                   (pairwiseNormalizedDistance pOnes pZeros
                      (nth (fst p) raw []) (nth (snd p) raw [])))
        l (differenceMatrix st) /\
    jointMatrix (fold_left (fun st p => pairBody pOnes pZeros raw (fst p) (snd p) st) l st)
    = fold_left (fun M p => mset M (fst p) (snd p)
                   (joinedDistance pOnes pZeros (nth (fst p) raw []) (nth (snd p) raw [])))
        l (jointMatrix st).
Proof.
  induction l as [|p l IH]; intro st; simpl; [repeat split|].
  apply IH.
Qed.

(** After the loop, [normalisationFactor] holds the value of the last
    pair. *)
Lemma pairBody_fold_last (pOnes pZeros : list R) (raw : list (list obs))
    (l : list (nat * nat)) (p : nat * nat) (st : PairState) :
  normalisationFactor
    (fold_left (fun st p => pairBody pOnes pZeros raw (fst p) (snd p) st) (l ++ [p]) st)
  = Some (pairNormalisation pOnes pZeros (nth (fst p) raw []) (nth (snd p) raw [])).
Proof. rewrite fold_left_app. reflexivity. Qed.

Lemma triPairs_in_range (n : nat) (p : nat * nat) :
  In p (triPairs n) -> fst p < n /\ snd p < n.
Proof.
  destruct p as [i j]. intro H. apply In_triPairs in H. simpl. lia.
Qed.

(** Reading an entry of an array that was filled with [F] over the
    pairs of the triangular loop, starting from zeros. *)
Ltac read_filled n F :=
  apply (fill_spec n F _ (triPairs_in_range n) _ (square_zeros n)).

(** The state the pairwise loop leaves. *)
Lemma pairLoop_spec (pOnes pZeros : list R) (raw : list (list obs)) (n : nat) :
  let st := triLoop (pairBody pOnes pZeros raw) n (initPairs n) in
  (forall i j, i < n -> j < n ->
     mget (simMatrix st) i j =
       (if j <=? i then normalisedSim pOnes pZeros (nth i raw []) (nth j raw [])
        else 0%R) /\
     mget (differenceMatrix st) i j =
       (if j <=? i
        then pairwiseNormalizedDistance pOnes pZeros (nth i raw []) (nth j raw [])
        else 0%R) /\
     mget (jointMatrix st) i j =
       (if j <=? i then joinedDistance pOnes pZeros (nth i raw []) (nth j raw [])
        else 0%R)) /\
  square n (jointMatrix st) /\
  (0 < n ->
   normalisationFactor st =
     Some (pairNormalisation pOnes pZeros (nth (n - 1) raw []) (nth (n - 1) raw []))).
Proof.
  intro st. unfold st. rewrite triLoop_pairs.
  destruct (pairBody_fold pOnes pZeros raw (triPairs n) (initPairs n))
    as [Hsim [Hdiff Hjoint]].
  set (Fsim := fun i j => normalisedSim pOnes pZeros (nth i raw []) (nth j raw [])).
  set (Fdiff := fun i j =>
                  pairwiseNormalizedDistance pOnes pZeros (nth i raw []) (nth j raw [])).
  set (Fjoint := fun i j => joinedDistance pOnes pZeros (nth i raw []) (nth j raw [])).
  split; [|split].
  - intros i j Hi Hj. rewrite Hsim, Hdiff, Hjoint. simpl.
    destruct (j <=? i) eqn:E.
    + apply Nat.leb_le in E.
      assert (Hin : In (i, j) (triPairs n)) by (apply In_triPairs; lia).
      repeat split;
        [read_filled n Fsim | read_filled n Fdiff | read_filled n Fjoint];
        exact Hin.
    + apply Nat.leb_gt in E.
      assert (Hin : ~ In (i, j) (triPairs n)) by (rewrite In_triPairs; lia).
      repeat split; rewrite <- (mget_zeros n i j);
        [read_filled n Fsim | read_filled n Fdiff | read_filled n Fjoint];
        exact Hin.
  - rewrite Hjoint. simpl. read_filled n Fjoint.
  - intro Hn. destruct n as [|m]; [lia|].
    rewrite triPairs_S, app_assoc, pairBody_fold_last. simpl fst. simpl snd.
    replace (S m - 1) with m by lia. reflexivity.
Qed.

(** ** The mirroring loop *)

(** One step of the mirroring loop leaves the lower triangle and the
    diagonal as they are. *)
Lemma mirrorBody_lower (n : nat) (M : matrix) (i j r c : nat) :
  square n M -> j <= i < n -> c <= r ->
  mget (mirrorBody i j M) r c = mget M r c.
Proof.
  intros HM Hij Hcr. unfold mirrorBody.
  rewrite (mget_mset n M j i r c _ HM) by lia.
  destruct (r =? j) eqn:E1; destruct (c =? i) eqn:E2; simpl; auto.
  apply Nat.eqb_eq in E1, E2. subst r c.
  replace j with i by lia. reflexivity.
Qed.

Lemma mirror_spec (n : nat) (l : list (nat * nat)) :
  (forall p, In p l -> snd p <= fst p < n) ->
  forall M, square n M ->
    square n (fold_left (fun M p => mirrorBody (fst p) (snd p) M) l M) /\
    forall r c,
      (c <= r ->
       mget (fold_left (fun M p => mirrorBody (fst p) (snd p) M) l M) r c = mget M r c) /\
      (r < c -> In (c, r) l ->
       mget (fold_left (fun M p => mirrorBody (fst p) (snd p) M) l M) r c = mget M c r).
Proof.
  induction l as [|p l IH]; intros Hl M HM.
  - simpl. split; [exact HM|]. intros r c. split; [reflexivity|intros _ []].
  - pose proof (Hl p (or_introl eq_refl)) as Hp.
    assert (Hl' : forall q, In q l -> snd q <= fst q < n)
      by (intros q Hq; apply Hl; right; exact Hq).
    assert (HM' : square n (mirrorBody (fst p) (snd p) M))
      by (unfold mirrorBody; apply square_mset; [exact HM | lia]).
    simpl fold_left.
    destruct (IH Hl' _ HM') as [Hsq Hpt].
    split; [exact Hsq|]. intros r c. destruct (Hpt r c) as [Hlow Hup].
    split.
    + intro Hcr. rewrite (Hlow Hcr). apply (mirrorBody_lower n); auto.
    + intros Hrc Hin.
      destruct (in_dec natpair_eq_dec (c, r) l) as [Hd|Hd].
      * rewrite (Hup Hrc Hd). apply (mirrorBody_lower n); auto. lia.
      * destruct Hin as [E|E]; [|contradiction]. subst p. simpl in *.
        clear Hup Hlow.
        assert (Hkeep : forall l' M', square n M' ->
                  (forall q, In q l' -> snd q <= fst q < n) -> ~ In (c, r) l' ->
                  mget (fold_left (fun M p => mirrorBody (fst p) (snd p) M) l' M') r c
                  = mget M' r c).
        { clear. intros l'. induction l' as [|q l' IHl]; intros M' HM' Hq Hn;
            [reflexivity|].
          simpl fold_left.
          pose proof (Hq q (or_introl eq_refl)) as Hq0.
          rewrite IHl.
          - unfold mirrorBody. rewrite (mget_mset n M' _ _ r c _ HM') by lia.
            destruct (r =? snd q) eqn:E1; destruct (c =? fst q) eqn:E2; simpl; auto.
            apply Nat.eqb_eq in E1, E2. exfalso. apply Hn. left.
            destruct q; simpl in *; congruence.
          - unfold mirrorBody. apply square_mset; [exact HM' | lia].
          - intros q' Hq'. apply Hq. right. exact Hq'.
          - intro H. apply Hn. right. exact H. }
        rewrite (Hkeep l _ HM' Hl' Hd).
        unfold mirrorBody. rewrite (mget_mset n M r c r c _ HM) by lia.
        rewrite !Nat.eqb_refl. reflexivity.
Qed.

(** The array the mirroring loop leaves: the lower triangle is kept and
    copied over the upper triangle. *)
Lemma mirrorLoop_spec (n : nat) (M : matrix) :
  square n M ->
  forall r c, r < n -> c < n ->
    mget (triLoop mirrorBody n M) r c = mget M (Nat.max r c) (Nat.min r c).
Proof.
  intros HM r c Hr Hc. rewrite triLoop_pairs.
  assert (Hl : forall p, In p (triPairs n) -> snd p <= fst p < n).
  { intros [i j] H. apply In_triPairs in H. exact H. }
  destruct (mirror_spec n (triPairs n) Hl M HM) as [_ Hpt].
  destruct (Hpt r c) as [Hlow Hup].
  destruct (Nat.le_gt_cases c r) as [Hcr|Hrc].
  - rewrite Nat.max_l, Nat.min_r by lia. apply Hlow. exact Hcr.
  - rewrite Nat.max_r, Nat.min_l by lia. apply Hup; [exact Hrc|].
    apply In_triPairs. lia.
Qed.

(** ** What [sparseDistance] returns *)

Lemma sparseDistance_spec (X K : DataFrame obs) (mp mm : Z) (weight : bool) :
  dataFilter mp mm X = Some K ->
  2 <= nrows K ->
  exists res,
    sparseDistance X mp mm weight = Returns res /\
    out_keptX res = K /\
    (forall i j, i < nrows K -> j < nrows K ->
       mget (values (out_simMatrix res)) i j =
         (if j <=? i
          then normalisedSim (pOnesOf weight K) (pZerosOf weight K)
                 (nth i (values K) []) (nth j (values K) [])
          else 0%R) /\
       mget (values (out_differenceMatrix res)) i j =
         (if j <=? i
          then pairwiseNormalizedDistance (pOnesOf weight K) (pZerosOf weight K)
                 (nth i (values K) []) (nth j (values K) [])
          else 0%R) /\
       mget (values (out_jointMatrix res)) i j =
         joinedDistance (pOnesOf weight K) (pZerosOf weight K)
           (nth (Nat.max i j) (values K) []) (nth (Nat.min i j) (values K) [])) /\
    out_normalisationFactor res =
      pairNormalisation (pOnesOf weight K) (pZerosOf weight K)
        (nth (nrows K - 1) (values K) []) (nth (nrows K - 1) (values K) []).
Proof.
  intros HK Hn. unfold sparseDistance. rewrite HK.
  destruct (nrows K <? 2) eqn:E; [apply Nat.ltb_lt in E; lia|]. clear E.
  cbv zeta. fold (nrows K).
  destruct (pairLoop_spec (pOnesOf weight K) (pZerosOf weight K) (values K) (nrows K))
    as [Hpt [Hsq Hnf]].
  rewrite Hnf by lia.
  eexists. split; [reflexivity|]. simpl.
  split; [reflexivity|]. split; [|reflexivity].
  intros i j Hi Hj. destruct (Hpt i j Hi Hj) as [Hs [Hd Hj']].
  split; [exact Hs|]. split; [exact Hd|].
  rewrite (mirrorLoop_spec (nrows K) _ Hsq i j Hi Hj).
  destruct (Hpt (Nat.max i j) (Nat.min i j)) as [_ [_ Hjj]]; try lia.
  rewrite Hjj.
  destruct (Nat.min i j <=? Nat.max i j) eqn:E; [reflexivity|].
  apply Nat.leb_gt in E. lia.
Qed.

(** ** Logarithms and weights *)

Section Weights.

Local Open Scope R_scope.

Lemma ln2_pos : 0 < ln 2.
Proof. pose proof ln_lt_2. lra. Qed.

Lemma log2_half_sq : - log2 ((1 / 2) ^ 2) = 2.
Proof.
  unfold log2. pose proof ln2_pos as H2.
  replace ((1 / 2) ^ 2) with (/ (2 * 2)) by field.
  rewrite ln_Rinv by lra. rewrite ln_mult by lra. field. lra.
Qed.

Lemma weight_pos (p : R) : 0 < p < 1 -> 0 < - log2 (p ^ 2).
Proof.
  intros [H0 H1]. unfold log2. pose proof ln2_pos as H2.
  assert (Hsq : 0 < p ^ 2 < 1) by (split; nra).
  assert (Hln : ln (p ^ 2) < 0).
  { rewrite <- ln_1. apply ln_increasing; lra. }
  pose proof (Rinv_0_lt_compat _ H2) as Hinv.
  unfold Rdiv. nra.
Qed.

Lemma weightOf_false (test : obs -> bool) (col : list obs) :
  weightOf false test col = 2.
Proof. unfold weightOf. apply log2_half_sq. Qed.

Lemma nth_map_seq {A} (f : nat -> A) (n j : nat) (d : A) :
  (j < n)%nat -> nth j (map f (seq 0 n)) d = f j.
Proof.
  intro Hj. rewrite (nth_indep _ d (f 0%nat)) by (rewrite length_map, length_seq; exact Hj).
  rewrite map_nth, seq_nth by exact Hj. reflexivity.
Qed.

Lemma nth_pOnesOf (weight : bool) (K : DataFrame obs) (j : nat) :
  (j < ncols K)%nat ->
  nth j (pOnesOf weight K) 0 = weightOf weight eq1 (column j K).
Proof.
  intro Hj. unfold pOnesOf.
  apply (nth_map_seq (fun j => weightOf weight eq1 (column j K))). exact Hj.
Qed.

Lemma nth_pZerosOf (weight : bool) (K : DataFrame obs) (j : nat) :
  (j < ncols K)%nat ->
  nth j (pZerosOf weight K) 0 = weightOf weight eq0 (column j K).
Proof.
  intro Hj. unfold pZerosOf.
  apply (nth_map_seq (fun j => weightOf weight eq0 (column j K))). exact Hj.
Qed.

Lemma count_ones_zeros (l : list obs) :
  (countIf eq1 l + countIf eq0 l <= length l)%nat.
Proof.
  unfold countIf. induction l as [|v l IH]; simpl; [lia|].
  destruct v; simpl; lia.
Qed.

Lemma column_length (j : nat) (K : DataFrame obs) : length (column j K) = nrows K.
Proof. unfold column, nrows. apply length_map. Qed.

Lemma fraction_bounds (c n : nat) :
  (1 <= c)%nat -> (c < n)%nat -> 0 < INR c / INR n < 1.
Proof.
  intros Hc Hn.
  assert (H1 : 0 < INR c) by (apply lt_0_INR; lia).
  assert (H2 : INR c < INR n) by (apply lt_INR; lia).
  assert (H3 : 0 < INR n) by lra.
  split.
  - apply Rdiv_lt_0_compat; assumption.
  - apply (Rmult_lt_reg_r (INR n)); [exact H3|].
    unfold Rdiv. rewrite Rmult_assoc, Rinv_l by lra. lra.
Qed.

(** The weights of a column that has an entry Present and an entry
    Absent. *)
Lemma weightOf_pos (weight : bool) (col : list obs) :
  (1 <= countIf eq1 col)%nat -> (1 <= countIf eq0 col)%nat ->
  0 < INR (countIf eq1 col) / INR (length col) /\
  0 < INR (countIf eq0 col) / INR (length col) /\
  0 < weightOf weight eq1 col /\ 0 < weightOf weight eq0 col.
Proof.
  intros H1 H0. pose proof (count_ones_zeros col) as Hle.
  assert (B1 : 0 < INR (countIf eq1 col) / INR (length col) < 1)
    by (apply fraction_bounds; lia).
  assert (B0 : 0 < INR (countIf eq0 col) / INR (length col) < 1)
    by (apply fraction_bounds; lia).
  split; [apply B1|]. split; [apply B0|].
  destruct weight.
  - unfold weightOf. split; apply weight_pos; assumption.
  - rewrite !weightOf_false. lra.
Qed.

(** ** The normalisation factor *)

Lemma vsum_mulMask_nonneg (p : list R) (m : list bool) :
  Forall (fun x => 0 < x) p -> 0 <= vsum (mulMask p m).
Proof.
  intro Hp. revert m. induction Hp as [|x p Hx Hp IH]; intros [|b m]; simpl; try lra.
  specialize (IH m). fold (mulMask p m). destruct b; simpl; lra.
Qed.

Lemma halfNormalisation_pos (pOnes pZeros : list R) (a : list obs) :
  Forall (fun x => 0 < x) pOnes -> Forall (fun x => 0 < x) pZeros ->
  length pOnes = length a -> length pZeros = length a ->
  (1 <= countIf ge0 a)%nat ->
  0 < vsum (mulMask pOnes (map eq1 a)) + vsum (mulMask pZeros (map eq0 a)).
Proof.
  revert pOnes pZeros. unfold countIf.
  induction a as [|v a IH]; intros pOnes pZeros H1 H0 L1 L0 Hc; simpl in Hc; [lia|].
  destruct pOnes as [|x pOnes]; [discriminate|].
  destruct pZeros as [|y pZeros]; [discriminate|].
  inversion H1 as [|? ? Hx H1']; subst. inversion H0 as [|? ? Hy H0']; subst.
  simpl in L1, L0. simpl.
  fold (mulMask pOnes (map eq1 a)). fold (mulMask pZeros (map eq0 a)).
  pose proof (vsum_mulMask_nonneg pOnes (map eq1 a) H1') as N1.
  pose proof (vsum_mulMask_nonneg pZeros (map eq0 a) H0') as N0.
  destruct v; simpl; try lra.
  simpl in Hc.
  assert (0 < vsum (mulMask pOnes (map eq1 a)) + vsum (mulMask pZeros (map eq0 a)))
    by (apply IH; auto; lia).
  lra.
Qed.

Lemma pairNormalisation_pos (pOnes pZeros : list R) (a b : list obs) :
  Forall (fun x => 0 < x) pOnes -> Forall (fun x => 0 < x) pZeros ->
  length pOnes = length a -> length pZeros = length a ->
  (1 <= countIf ge0 a)%nat ->
  0 < pairNormalisation pOnes pZeros a b.
Proof.
  intros H1 H0 L1 L0 Hc. unfold pairNormalisation.
  pose proof (halfNormalisation_pos pOnes pZeros a H1 H0 L1 L0 Hc).
  pose proof (vsum_mulMask_nonneg pOnes (map eq1 b) H1).
  pose proof (vsum_mulMask_nonneg pZeros (map eq0 b) H0).
  lra.
Qed.

(** Without features every sum is empty. *)
Lemma pairNormalisation_nil (a b : list obs) : pairNormalisation [] [] a b = 0.
Proof. unfold pairNormalisation. simpl. lra. Qed.

End Weights.

(** ** Columns and entries *)

Lemma map_via_seq {A B} (f : A -> B) (d : A) (l : list A) :
  map f l = map (fun i => f (nth i l d)) (seq 0 (length l)).
Proof.
  induction l as [|x l IH]; simpl; [reflexivity|].
  f_equal. rewrite <- seq_shift, map_map. exact IH.
Qed.

Lemma column_entries (j : nat) (K : DataFrame obs) :
  column j K = map (fun i => entry K i j) (seq 0 (nrows K)).
Proof.
  unfold column, entry, nrows.
  apply (map_via_seq (fun row : list obs => nth j row Missing) [] (values K)).
Qed.

Lemma filter_map_length {A B} (p : B -> bool) (g : A -> B) (l : list A) :
  length (filter p (map g l)) = length (filter (fun x => p (g x)) l).
Proof.
  induction l as [|x l IH]; simpl; [reflexivity|].
  destruct (p (g x)); simpl; rewrite IH; reflexivity.
Qed.

Lemma countIf_column (test : obs -> bool) (v : obs) (j : nat) (K : DataFrame obs) :
  (forall u, test u = obs_eqb u v) ->
  countIf test (column j K)
  = length (filter (fun i => obs_eqb (entry K i j) v) (seq 0 (nrows K))).
Proof.
  intro Ht. unfold countIf. rewrite column_entries, filter_map_length.
  f_equal. apply filter_ext. intro i. apply Ht.
Qed.

(** ** The claims on the returned values *)

Section Claims.

Local Open Scope R_scope.
Local Open Scope string_scope.

(** At a fixed point of the filter with [minPresence >= 1] every weight
    is positive. *)
Lemma weights_all_pos (K : DataFrame obs) (mp mm : Z) (weight : bool) :
  wf K = true -> filterStep mp mm K = K -> (1 <= mp)%Z ->
  Forall (fun x => 0 < x) (pOnesOf weight K) /\
  Forall (fun x => 0 < x) (pZerosOf weight K).
Proof.
  intros Hwf Hfix Hmp.
  destruct (filterStep_fixed_tests mp mm K Hwf Hfix) as [_ Hcols].
  unfold pOnesOf, pZerosOf. split; apply Forall_forall; intros x Hx;
    apply in_map_iff in Hx; destruct Hx as [j [<- Hj]]; apply in_seq in Hj;
    destruct (Hcols j) as [H1 H0]; try lia;
    apply (weightOf_pos weight (column j K)); lia.
Qed.

(** The joint matrix, the one array the mirroring loop treats, is
    symmetric. *)
Lemma jointMatrix_symmetric (X K : DataFrame obs) (mp mm : Z) (weight : bool) :
  dataFilter mp mm X = Some K ->
  (2 <= nrows K)%nat ->
  exists res,
    sparseDistance X mp mm weight = Returns res /\
    forall i j, (i < nrows K)%nat -> (j < nrows K)%nat ->
      mget (values (out_jointMatrix res)) i j = mget (values (out_jointMatrix res)) j i.
Proof.
  intros HK Hn.
  destruct (sparseDistance_spec X K mp mm weight HK Hn) as [res [Hres [_ [Hpt _]]]].
  exists res. split; [exact Hres|]. intros i j Hi Hj.
  destruct (Hpt i j Hi Hj) as [_ [_ H1]]. destruct (Hpt j i Hj Hi) as [_ [_ H2]].
  rewrite H1, H2, Nat.max_comm, Nat.min_comm. reflexivity.
Qed.

(** With [weight=False] both arrays are constant. *)
Lemma pOnesOf_false (K : DataFrame obs) : pOnesOf false K = repeat 2 (ncols K).
Proof.
  unfold pOnesOf.
  rewrite (map_ext _ (fun _ => 2)) by (intro; apply weightOf_false).
  rewrite map_const, length_seq. reflexivity.
Qed.

Lemma pZerosOf_false (K : DataFrame obs) : pZerosOf false K = repeat 2 (ncols K).
Proof.
  unfold pZerosOf.
  rewrite (map_ext _ (fun _ => 2)) by (intro; apply weightOf_false).
  rewrite map_const, length_seq. reflexivity.
Qed.

(** With uniform weights, on [sampleDense], the entries at [(1, 0)] of
    the similarity and the difference matrix are 1/2 and the entries at
    [(0, 1)] are 0. *)
Example not_mirrored_uniform_weights :
  exists res,
    sparseDistance sampleDense 1 1 false = Returns res /\
    mget (values (out_simMatrix res)) 1 0 = 1 / 2 /\
    mget (values (out_simMatrix res)) 0 1 = 0 /\
    mget (values (out_differenceMatrix res)) 1 0 = 1 / 2 /\
    mget (values (out_differenceMatrix res)) 0 1 = 0 /\
    mget (values (out_jointMatrix res)) 1 0 = 1 /\
    mget (values (out_jointMatrix res)) 0 1 = 1.
Proof.
  destruct (sparseDistance_spec sampleDense sampleDense 1 1 false
              dataFilter_sampleDense) as [res [Hres [_ [Hpt _]]]];
    [vm_compute; lia|].
  exists res. split; [exact Hres|].
  destruct (Hpt 1%nat 0%nat) as [Hs10 [Hd10 Hj10]]; [vm_compute; lia | vm_compute; lia |].
  destruct (Hpt 0%nat 1%nat) as [Hs01 [Hd01 Hj01]]; [vm_compute; lia | vm_compute; lia |].
  rewrite Hs10, Hs01, Hd10, Hd01, Hj10, Hj01.
  rewrite pOnesOf_false, pZerosOf_false.
  cbv [Nat.leb Nat.max Nat.min sampleDense values columns ncols length repeat nth
       joinedDistance normalisedSim pairwiseNormalizedDistance pairSim
       pairNormalisation pairwiseUnnormalizedDistance
       vsum vadd vand maskMul mulMask zipWith map fold_right eq1 eq0 b2R andb].
  repeat split; lra.
Qed.

(** C1.  The symmetry of all three returned matrices fails on the code
    for the similarity and the difference matrix: the mirroring loop
    treats [jointMatrix] alone.  On [sampleDense], whatever [weight] is,
    the entries at [(1, 0)] of [simMatrix] and [differenceMatrix] are
    positive while their entries at [(0, 1)] are left at 0; the joint
    matrix is symmetric there. *)
Theorem similarity_and_difference_not_mirrored (weight : bool) :
  exists res,
    sparseDistance sampleDense 1 1 weight = Returns res /\
    0 < mget (values (out_simMatrix res)) 1 0 /\
    mget (values (out_simMatrix res)) 0 1 = 0 /\
    0 < mget (values (out_differenceMatrix res)) 1 0 /\
    mget (values (out_differenceMatrix res)) 0 1 = 0 /\
    mget (values (out_jointMatrix res)) 0 1 = mget (values (out_jointMatrix res)) 1 0.
Proof.
  destruct (sparseDistance_spec sampleDense sampleDense 1 1 weight
              dataFilter_sampleDense) as [res [Hres [_ [Hpt _]]]];
    [vm_compute; lia|].
  exists res. split; [exact Hres|].
  destruct (Hpt 1%nat 0%nat) as [Hs10 [Hd10 Hj10]]; [vm_compute; lia | vm_compute; lia |].
  destruct (Hpt 0%nat 1%nat) as [Hs01 [Hd01 Hj01]]; [vm_compute; lia | vm_compute; lia |].
  rewrite Hs10, Hs01, Hd10, Hd01, Hj10, Hj01.
  destruct (weights_all_pos sampleDense 1 1 weight) as [P1 P0];
    [reflexivity | vm_compute; reflexivity | lia |].
  change (pOnesOf weight sampleDense)
    with [weightOf weight eq1 (column 0 sampleDense);
          weightOf weight eq1 (column 1 sampleDense)] in *.
  change (pZerosOf weight sampleDense)
    with [weightOf weight eq0 (column 0 sampleDense);
          weightOf weight eq0 (column 1 sampleDense)] in *.
  set (x0 := weightOf weight eq1 (column 0 sampleDense)) in *.
  set (x1 := weightOf weight eq1 (column 1 sampleDense)) in *.
  set (y0 := weightOf weight eq0 (column 0 sampleDense)) in *.
  set (y1 := weightOf weight eq0 (column 1 sampleDense)) in *.
  inversion P1 as [|? ? Hx0 P1']; subst. inversion P1' as [|? ? Hx1 _]; subst.
  inversion P0 as [|? ? Hy0 P0']; subst. inversion P0' as [|? ? Hy1 _]; subst.
  cbv [Nat.leb Nat.max Nat.min sampleDense values nth
       joinedDistance normalisedSim pairwiseNormalizedDistance pairSim
       pairNormalisation pairwiseUnnormalizedDistance
       vsum vadd vand maskMul mulMask zipWith map fold_right eq1 eq0 b2R andb].
  repeat split; try reflexivity; apply Rdiv_lt_0_compat; lra.
Qed.

(** C2.  In the returned similarity and difference matrices every entry
    strictly above the diagonal is zero: the pairwise loop writes only
    positions [(cai, cbi)] with [cbi <= cai], and the mirroring loop
    treats [jointMatrix] alone. *)
Theorem upper_triangle_zero (X K : DataFrame obs) (mp mm : Z) (weight : bool) :
  dataFilter mp mm X = Some K ->
  (2 <= nrows K)%nat ->
  exists res,
    sparseDistance X mp mm weight = Returns res /\
    forall i j, (i < j)%nat -> (j < nrows K)%nat ->
      mget (values (out_simMatrix res)) i j = 0 /\
      mget (values (out_differenceMatrix res)) i j = 0.
Proof.
  intros HK Hn.
  destruct (sparseDistance_spec X K mp mm weight HK Hn) as [res [Hres [_ [Hpt _]]]].
  exists res. split; [exact Hres|]. intros i j Hij Hj.
  destruct (Hpt i j) as [Hs [Hd _]]; [lia | lia |].
  rewrite Hs, Hd.
  destruct (j <=? i)%nat eqn:E; [apply Nat.leb_le in E; lia|].
  split; reflexivity.
Qed.

Lemma upper_triangle_zero_witness :
  dataFilter 1 1 sampleSparse = Some sampleSparseKept /\
  (2 <= nrows sampleSparseKept)%nat /\
  exists res,
    sparseDistance sampleSparse 1 1 true = Returns res /\
    forall i j, (i < j)%nat -> (j < nrows sampleSparseKept)%nat ->
      mget (values (out_simMatrix res)) i j = 0 /\
      mget (values (out_differenceMatrix res)) i j = 0.
Proof.
  split; [vm_compute; reflexivity|]. split; [vm_compute; lia|].
  apply (upper_triangle_zero sampleSparse sampleSparseKept 1 1 true).
  - vm_compute; reflexivity.
  - vm_compute; lia.
Defined.

Lemma sparseDistance_raises (X K : DataFrame obs) (mp mm : Z) (weight : bool) :
  dataFilter mp mm X = Some K ->
  (nrows K < 2)%nat ->
  sparseDistance X mp mm weight = Raises (ValueError "Not enough data").
Proof.
  intros HK Hn. unfold sparseDistance. rewrite HK.
  destruct (nrows K <? 2)%nat eqn:E; [reflexivity|].
  apply Nat.ltb_ge in E. lia.
Qed.

(** C3.  When the filter leaves fewer than 2 rows, [sparseDistance]
    raises the source's [ValueError('Not enough data')] (the error the
    specification names InsufficientDataError) and returns nothing. *)
Theorem too_few_cells_raises (X K : DataFrame obs) (mp mm : Z) (weight : bool) :
  dataFilter mp mm X = Some K ->
  (nrows K < 2)%nat ->
  sparseDistance X mp mm weight = Raises (ValueError "Not enough data") /\
  forall res, sparseDistance X mp mm weight <> Returns res.
Proof.
  intros HK Hn.
  pose proof (sparseDistance_raises X K mp mm weight HK Hn) as H.
  split; [exact H|]. intros res. rewrite H. discriminate.
Qed.

Lemma too_few_cells_raises_witness :
  dataFilter 1 1 sampleSingle = Some sampleEmpty /\
  (nrows sampleEmpty < 2)%nat /\
  sparseDistance sampleSingle 1 1 true = Raises (ValueError "Not enough data") /\
  forall res, sparseDistance sampleSingle 1 1 true <> Returns res.
Proof.
  split; [vm_compute; reflexivity|]. split; [vm_compute; lia|].
  apply (too_few_cells_raises sampleSingle sampleEmpty 1 1 true).
  - vm_compute; reflexivity.
  - vm_compute; lia.
Defined.

(** C4, as stated, fails: on [sampleConstant] with
    [minMeasurementsPerCell = 0] the filter keeps both cells and no
    feature, and [sparseDistance] returns instead of raising. *)
Lemma no_feature_guard_counterexample :
  dataFilter 1 0 sampleConstant = Some sampleConstantKept /\
  ncols sampleConstantKept = 0%nat /\
  (2 <= nrows sampleConstantKept)%nat /\
  (exists res, sparseDistance sampleConstant 1 0 true = Returns res) /\
  sparseDistance sampleConstant 1 0 true <> Raises (ValueError "no features retained").
Proof.
  assert (HK : dataFilter 1 0 sampleConstant = Some sampleConstantKept)
    by (vm_compute; reflexivity).
  split; [exact HK|]. split; [reflexivity|]. split; [vm_compute; lia|].
  destruct (sparseDistance_spec sampleConstant sampleConstantKept 1 0 true HK)
    as [res [Hres _]]; [vm_compute; lia|].
  split; [exists res; exact Hres|]. rewrite Hres. discriminate.
Qed.

(** C4, amended.  The code has no test on the number of features.  When
    the filter keeps no feature: with [minMeasurementsPerCell >= 1] it
    keeps no row either, and [sparseDistance] raises
    [ValueError('Not enough data')]; and whenever at least 2 rows are
    kept, [sparseDistance] returns, the normalisation factor being 0. *)
Theorem zero_features_behaviour (X K : DataFrame obs) (mp mm : Z) (weight : bool) :
  wf X = true ->
  dataFilter mp mm X = Some K ->
  ncols K = 0%nat ->
  ((1 <= mm)%Z ->
     nrows K = 0%nat /\
     sparseDistance X mp mm weight = Raises (ValueError "Not enough data")) /\
  ((2 <= nrows K)%nat ->
     exists res,
       sparseDistance X mp mm weight = Returns res /\
       out_normalisationFactor res = 0).
Proof.
  intros Hwf HK Hc. split.
  - intro Hmm.
    destruct (dataFilter_fixed mp mm X K Hwf HK) as [HwfK Hfix].
    destruct (filterStep_fixed_tests mp mm K HwfK Hfix) as [Hrows _].
    apply wf_spec in HwfK. destruct HwfK as [_ Hlen].
    assert (Hn : nrows K = 0%nat).
    { unfold nrows. destruct (values K) as [|row rows] eqn:E; [reflexivity|].
      exfalso.
      assert (Hin : In row (row :: rows)) by (left; reflexivity).
      specialize (Hrows row Hin). specialize (Hlen row Hin).
      rewrite Hc in Hlen. destruct row; [|discriminate].
      unfold countIf in Hrows. simpl in Hrows. lia. }
    split; [exact Hn|].
    apply (sparseDistance_raises X K mp mm weight HK). lia.
  - intro Hn.
    destruct (sparseDistance_spec X K mp mm weight HK Hn) as [res [Hres [_ [_ Hnf]]]].
    exists res. split; [exact Hres|]. rewrite Hnf.
    unfold pOnesOf, pZerosOf. rewrite Hc. simpl. apply pairNormalisation_nil.
Qed.

Lemma zero_features_behaviour_witness :
  wf sampleConstant = true /\
  dataFilter 1 0 sampleConstant = Some sampleConstantKept /\
  ncols sampleConstantKept = 0%nat /\
  ((1 <= 0)%Z ->
     nrows sampleConstantKept = 0%nat /\
     sparseDistance sampleConstant 1 0 true = Raises (ValueError "Not enough data")) /\
  ((2 <= nrows sampleConstantKept)%nat ->
     exists res,
       sparseDistance sampleConstant 1 0 true = Returns res /\
       out_normalisationFactor res = 0).
Proof.
  split; [reflexivity|]. split; [vm_compute; reflexivity|]. split; [reflexivity|].
  apply (zero_features_behaviour sampleConstant sampleConstantKept 1 0 true).
  - reflexivity.
  - vm_compute; reflexivity.
  - reflexivity.
Defined.

(** C8.  On a matrix with distinct feature labels, where the column
    [keptX[feature]] of the [j]-th feature is the one column at position
    [j]: with [weight=True] the weights of the feature are
    [-log2(p1^2)] and [-log2(p0^2)], where [p1] and [p0] are the
    fractions of the retained rows in which the feature is Present and
    Absent, over the full number of retained rows; with [weight=False]
    both weights are 2. *)
Theorem feature_weights (K : DataFrame obs) (j : nat) :
  (j < ncols K)%nat ->
  distinct (columns K) = true ->
  columnsNamed (nth j (columns K) EmptyString) K = [column j K] /\
  nth j (pOnesOf true K) 0 = - log2 (fraction Present K j ^ 2) /\
  nth j (pZerosOf true K) 0 = - log2 (fraction Absent K j ^ 2) /\
  nth j (pOnesOf false K) 0 = 2 /\
  nth j (pZerosOf false K) 0 = 2.
Proof.
  intros Hj Hd.
  split; [apply columnsNamed_distinct; [apply distinct_NoDup; exact Hd | exact Hj]|].
  rewrite !nth_pOnesOf, !nth_pZerosOf by exact Hj.
  rewrite !weightOf_false. unfold weightOf, fraction.
  rewrite column_length.
  rewrite (countIf_column eq1 Present) by (intros []; reflexivity).
  rewrite (countIf_column eq0 Absent) by (intros []; reflexivity).
  repeat split; reflexivity.
Qed.

Lemma feature_weights_witness :
  (0 < ncols sampleDense)%nat /\
  distinct (columns sampleDense) = true /\
  columnsNamed (nth 0 (columns sampleDense) EmptyString) sampleDense
    = [column 0 sampleDense] /\
  nth 0 (pOnesOf true sampleDense) 0 = - log2 (fraction Present sampleDense 0 ^ 2) /\
  nth 0 (pZerosOf true sampleDense) 0 = - log2 (fraction Absent sampleDense 0 ^ 2) /\
  nth 0 (pOnesOf false sampleDense) 0 = 2 /\
  nth 0 (pZerosOf false sampleDense) 0 = 2.
Proof.
  split; [vm_compute; lia|]. split; [reflexivity|].
  apply (feature_weights sampleDense 0); [vm_compute; lia | reflexivity].
Defined.

(** C9.  On the output of the filter run, with thresholds of at least
    1, on a matrix with distinct feature labels: every retained feature
    is looked up as the one column at its position, its fractions [p1]
    and [p0] are positive, both of its weights are positive, and the
    normalisation factor of every pair of retained cells is positive,
    so that the two divisions of the pairwise loop never divide by
    zero. *)
Theorem numeric_safety (X K : DataFrame obs) (mp mm : Z) (weight : bool) :
  wf X = true ->
  distinct (columns X) = true ->
  (1 <= mp)%Z -> (1 <= mm)%Z ->
  dataFilter mp mm X = Some K ->
  (forall j, (j < ncols K)%nat ->
     columnsNamed (nth j (columns K) EmptyString) K = [column j K] /\
     0 < INR (countIf eq1 (column j K)) / INR (length (column j K)) /\
     0 < INR (countIf eq0 (column j K)) / INR (length (column j K)) /\
     0 < nth j (pOnesOf weight K) 0 /\
     0 < nth j (pZerosOf weight K) 0) /\
  (forall i j, (i < nrows K)%nat -> (j < nrows K)%nat ->
     0 < pairNormalisation (pOnesOf weight K) (pZerosOf weight K)
           (nth i (values K) []) (nth j (values K) [])).
Proof.
  intros Hwf Hdist Hmp Hmm HK.
  pose proof (dataFilter_columns_distinct mp mm X K Hwf Hdist HK) as Hnd.
  destruct (dataFilter_fixed mp mm X K Hwf HK) as [HwfK Hfix].
  destruct (filterStep_fixed_tests mp mm K HwfK Hfix) as [Hrows Hcols].
  split.
  - intros j Hj. destruct (Hcols j Hj) as [H1 H0].
    split; [apply columnsNamed_distinct; assumption|].
    rewrite nth_pOnesOf, nth_pZerosOf by exact Hj.
    apply weightOf_pos; lia.
  - intros i j Hi Hj.
    destruct (weights_all_pos K mp mm weight HwfK Hfix Hmp) as [P1 P0].
    assert (Hin : In (nth i (values K) []) (values K)) by (apply nth_In; exact Hi).
    apply wf_spec in HwfK. destruct HwfK as [_ Hlen].
    apply pairNormalisation_pos; auto.
    + unfold pOnesOf. rewrite length_map, length_seq. symmetry. apply Hlen. exact Hin.
    + unfold pZerosOf. rewrite length_map, length_seq. symmetry. apply Hlen. exact Hin.
    + specialize (Hrows _ Hin). lia.
Qed.

Lemma numeric_safety_witness :
  wf sampleSparse = true /\ distinct (columns sampleSparse) = true /\
  (1 <= 1)%Z /\ (1 <= 1)%Z /\
  dataFilter 1 1 sampleSparse = Some sampleSparseKept /\
  (forall j, (j < ncols sampleSparseKept)%nat ->
     columnsNamed (nth j (columns sampleSparseKept) EmptyString) sampleSparseKept
       = [column j sampleSparseKept] /\
     0 < INR (countIf eq1 (column j sampleSparseKept))
         / INR (length (column j sampleSparseKept)) /\
     0 < INR (countIf eq0 (column j sampleSparseKept))
         / INR (length (column j sampleSparseKept)) /\
     0 < nth j (pOnesOf true sampleSparseKept) 0 /\
     0 < nth j (pZerosOf true sampleSparseKept) 0) /\
  (forall i j, (i < nrows sampleSparseKept)%nat -> (j < nrows sampleSparseKept)%nat ->
     0 < pairNormalisation (pOnesOf true sampleSparseKept) (pZerosOf true sampleSparseKept)
           (nth i (values sampleSparseKept) []) (nth j (values sampleSparseKept) [])).
Proof.
  split; [reflexivity|]. split; [reflexivity|]. split; [lia|]. split; [lia|].
  split; [vm_compute; reflexivity|].
  apply (numeric_safety sampleSparse sampleSparseKept 1 1 true).
  - reflexivity.
  - reflexivity.
  - lia.
  - lia.
  - vm_compute; reflexivity.
Defined.

Lemma last_triPairs (n : nat) :
  (0 < n)%nat -> last (triPairs n) (0, 0)%nat = (n - 1, n - 1)%nat.
Proof.
  intro Hn. destruct n as [|m]; [lia|].
  rewrite triPairs_S, app_assoc, last_last.
  replace (S m - 1)%nat with m by lia. reflexivity.
Qed.

(** C10.  The fifth returned value is one number: the normalisation
    factor of the last pair the pairwise loop visits, which is the
    diagonal pair [(n-1, n-1)] of the last retained cell. *)
Theorem returned_normalisation_is_last_pair
    (X K : DataFrame obs) (mp mm : Z) (weight : bool) :
  dataFilter mp mm X = Some K ->
  (2 <= nrows K)%nat ->
  last (triPairs (nrows K)) (0, 0)%nat = (nrows K - 1, nrows K - 1)%nat /\
  exists res,
    sparseDistance X mp mm weight = Returns res /\
    out_normalisationFactor res =
      pairNormalisation (pOnesOf weight K) (pZerosOf weight K)
        (nth (nrows K - 1) (values K) []) (nth (nrows K - 1) (values K) []).
Proof.
  intros HK Hn. split; [apply last_triPairs; lia|].
  destruct (sparseDistance_spec X K mp mm weight HK Hn) as [res [Hres [_ [_ Hnf]]]].
  exists res. split; [exact Hres | exact Hnf].
Qed.

Lemma returned_normalisation_is_last_pair_witness :
  dataFilter 1 1 sampleSparse = Some sampleSparseKept /\
  (2 <= nrows sampleSparseKept)%nat /\
  last (triPairs (nrows sampleSparseKept)) (0, 0)%nat
    = (nrows sampleSparseKept - 1, nrows sampleSparseKept - 1)%nat /\
  exists res,
    sparseDistance sampleSparse 1 1 true = Returns res /\
    out_normalisationFactor res =
      pairNormalisation (pOnesOf true sampleSparseKept) (pZerosOf true sampleSparseKept)
        (nth (nrows sampleSparseKept - 1) (values sampleSparseKept) [])
        (nth (nrows sampleSparseKept - 1) (values sampleSparseKept) []).
Proof.
  split; [vm_compute; reflexivity|]. split; [vm_compute; lia|].
  apply (returned_normalisation_is_last_pair sampleSparse sampleSparseKept 1 1 true).
  - vm_compute; reflexivity.
  - vm_compute; lia.
Defined.

End Claims.

(** ** The pairwise quantities as sums over the features *)

Section PairAlgebra.

Local Open Scope R_scope.

Lemma unnormalized_cons (x y : R) (pOnes pZeros : list R) (u v : obs) (a b : list obs) :
  vsum (pairwiseUnnormalizedDistance (x :: pOnes) (y :: pZeros) (u :: a) (v :: b))
  = b2R (eq1 u && eq0 v) * (x + y) + b2R (eq0 u && eq1 v) * (y + x)
    + vsum (pairwiseUnnormalizedDistance pOnes pZeros a b).
Proof. reflexivity. Qed.

Lemma pairSim_cons (x y : R) (pOnes pZeros : list R) (u v : obs) (a b : list obs) :
  pairSim (x :: pOnes) (y :: pZeros) (u :: a) (v :: b)
  = (x + x) * b2R (eq1 u && eq1 v) + (y + y) * b2R (eq0 u && eq0 v)
    + pairSim pOnes pZeros a b.
Proof. unfold pairSim. simpl. fold vadd vand mulMask. lra. Qed.

Lemma pairNormalisation_cons (x y : R) (pOnes pZeros : list R) (u v : obs)
    (a b : list obs) :
  pairNormalisation (x :: pOnes) (y :: pZeros) (u :: a) (v :: b)
  = x * b2R (eq1 u) + y * b2R (eq0 u) + x * b2R (eq1 v) + y * b2R (eq0 v)
    + pairNormalisation pOnes pZeros a b.
Proof. unfold pairNormalisation. simpl. fold mulMask. lra. Qed.

Lemma pairs_nil (a b : list obs) :
  vsum (pairwiseUnnormalizedDistance [] [] a b) = 0 /\
  pairSim [] [] a b = 0 /\ pairNormalisation [] [] a b = 0.
Proof.
  unfold pairwiseUnnormalizedDistance, pairSim, pairNormalisation.
  simpl. destruct (vand (map eq1 a) (map eq0 b)); simpl; repeat split; lra.
Qed.

(** Four arrays of one length, taken apart together. *)
Lemma same_length_ind
    (P : list R -> list R -> list obs -> list obs -> Prop) :
  P [] [] [] [] ->
  (forall x y u v pOnes pZeros a b,
     length pZeros = length pOnes -> length a = length pOnes ->
     length b = length pOnes ->
     P pOnes pZeros a b -> P (x :: pOnes) (y :: pZeros) (u :: a) (v :: b)) ->
  forall pOnes pZeros a b,
    length pZeros = length pOnes -> length a = length pOnes ->
    length b = length pOnes ->
    P pOnes pZeros a b.
Proof.
  intros Hnil Hcons. induction pOnes as [|x pOnes IH];
    intros [|y pZeros] [|u a] [|v b] L1 L2 L3; simpl in *; try discriminate.
  - exact Hnil.
  - apply Hcons; try lia. apply IH; lia.
Qed.

(** With positive weights, the raw distance and the raw similarity are
    non-negative and together at most the normalisation factor; they
    add up to it when neither row has a missing entry. *)
Lemma pair_sums_bounds (pOnes pZeros : list R) (a b : list obs) :
  length pZeros = length pOnes -> length a = length pOnes ->
  length b = length pOnes ->
  Forall (fun x => 0 < x) pOnes -> Forall (fun x => 0 < x) pZeros ->
  0 <= vsum (pairwiseUnnormalizedDistance pOnes pZeros a b) /\
  0 <= pairSim pOnes pZeros a b /\
  vsum (pairwiseUnnormalizedDistance pOnes pZeros a b) + pairSim pOnes pZeros a b
    <= pairNormalisation pOnes pZeros a b /\
  (forallb ge0 a = true -> forallb ge0 b = true ->
   vsum (pairwiseUnnormalizedDistance pOnes pZeros a b) + pairSim pOnes pZeros a b
     = pairNormalisation pOnes pZeros a b).
Proof.
  intros L1 L2 L3. revert pOnes pZeros a b L1 L2 L3.
  apply (same_length_ind
    (fun pOnes pZeros a b =>
       Forall (fun x => 0 < x) pOnes -> Forall (fun x => 0 < x) pZeros ->
       0 <= vsum (pairwiseUnnormalizedDistance pOnes pZeros a b) /\
       0 <= pairSim pOnes pZeros a b /\
       vsum (pairwiseUnnormalizedDistance pOnes pZeros a b) + pairSim pOnes pZeros a b
         <= pairNormalisation pOnes pZeros a b /\
       (forallb ge0 a = true -> forallb ge0 b = true ->
        vsum (pairwiseUnnormalizedDistance pOnes pZeros a b) + pairSim pOnes pZeros a b
          = pairNormalisation pOnes pZeros a b))).
  - intros _ _. destruct (pairs_nil [] []) as [-> [-> ->]].
    repeat split; intros; lra.
  - intros x y u v pOnes pZeros a b _ _ _ IH H1 H0.
    inversion H1 as [|? ? Hx H1']; subst. inversion H0 as [|? ? Hy H0']; subst.
    destruct (IH H1' H0') as [IU [IS [Ile Ieq]]].
    rewrite unnormalized_cons, pairSim_cons, pairNormalisation_cons.
    repeat split.
    + destruct u, v; simpl; lra.
    + destruct u, v; simpl; lra.
    + destruct u, v; simpl; lra.
    + intros Ha Hb. simpl in Ha, Hb.
      apply andb_true_iff in Ha, Hb. destruct Ha as [Hu Ha], Hb as [Hv Hb].
      specialize (Ieq Ha Hb).
      destruct u, v; simpl in *; try discriminate; lra.
Qed.

(** A row against itself: no raw distance, and a raw similarity equal
    to the normalisation factor. *)
Lemma pair_sums_same (pOnes pZeros : list R) (a : list obs) :
  length pZeros = length pOnes -> length a = length pOnes ->
  vsum (pairwiseUnnormalizedDistance pOnes pZeros a a) = 0 /\
  pairSim pOnes pZeros a a = pairNormalisation pOnes pZeros a a.
Proof.
  intros L1 L2.
  assert (H : forall pOnes pZeros a b,
             length pZeros = length pOnes -> length a = length pOnes ->
             length b = length pOnes -> a = b ->
             vsum (pairwiseUnnormalizedDistance pOnes pZeros a b) = 0 /\
             pairSim pOnes pZeros a b = pairNormalisation pOnes pZeros a b).
  { apply (same_length_ind
      (fun pOnes pZeros a b => a = b ->
         vsum (pairwiseUnnormalizedDistance pOnes pZeros a b) = 0 /\
         pairSim pOnes pZeros a b = pairNormalisation pOnes pZeros a b)).
    - intros _. destruct (pairs_nil [] []) as [-> [-> ->]]. split; reflexivity.
    - intros x y u v pO pZ a0 b0 _ _ _ IH E. injection E as -> ->.
      destruct (IH eq_refl) as [IU IS].
      rewrite unnormalized_cons, pairSim_cons, pairNormalisation_cons, IU, IS.
      destruct v; simpl; split; lra. }
  apply H; auto.
Qed.

(** The pairwise quantities do not depend on the order of the two
    rows. *)
Lemma unnormalized_sym (pOnes pZeros : list R) :
  forall a b,
    pairwiseUnnormalizedDistance pOnes pZeros a b
    = pairwiseUnnormalizedDistance pOnes pZeros b a.
Proof.
  revert pZeros. induction pOnes as [|x pOnes IH]; intros pZeros a b.
  - unfold pairwiseUnnormalizedDistance.
    destruct pZeros, a, b; reflexivity.
  - unfold pairwiseUnnormalizedDistance.
    destruct pZeros as [|y pZeros], a as [|u a], b as [|v b]; try reflexivity.
    specialize (IH pZeros a b). unfold pairwiseUnnormalizedDistance in IH.
    unfold vadd, vand, maskMul in *. simpl. f_equal; [|exact IH].
    destruct u, v; simpl; lra.
Qed.

Lemma vand_comm (m1 m2 : list bool) : vand m1 m2 = vand m2 m1.
Proof.
  unfold vand. revert m2.
  induction m1 as [|c m1 IH]; intros [|d m2]; simpl; try reflexivity.
  rewrite IH, andb_comm. reflexivity.
Qed.

Lemma pairSim_sym (pOnes pZeros : list R) (a b : list obs) :
  pairSim pOnes pZeros a b = pairSim pOnes pZeros b a.
Proof.
  unfold pairSim.
  rewrite (vand_comm (map eq1 a)), (vand_comm (map eq0 a)). reflexivity.
Qed.

End PairAlgebra.

(** ** Further properties of the returned matrices *)

Section Returned.

Local Open Scope R_scope.

(** What the filter run with thresholds of at least 1 guarantees to the
    pairwise loop. *)
Lemma filtered_ready (X K : DataFrame obs) (mp mm : Z) (weight : bool) :
  wf X = true -> (1 <= mp)%Z -> (1 <= mm)%Z ->
  dataFilter mp mm X = Some K ->
  Forall (fun x => 0 < x) (pOnesOf weight K) /\
  Forall (fun x => 0 < x) (pZerosOf weight K) /\
  length (pOnesOf weight K) = ncols K /\
  length (pZerosOf weight K) = ncols K /\
  forall i, (i < nrows K)%nat ->
    length (nth i (values K) []) = ncols K /\
    (1 <= countIf ge0 (nth i (values K) []))%nat.
Proof.
  intros Hwf Hmp Hmm HK.
  destruct (dataFilter_fixed mp mm X K Hwf HK) as [HwfK Hfix].
  destruct (weights_all_pos K mp mm weight HwfK Hfix Hmp) as [P1 P0].
  destruct (filterStep_fixed_tests mp mm K HwfK Hfix) as [Hrows _].
  apply wf_spec in HwfK. destruct HwfK as [_ Hlen].
  repeat split; auto.
  - unfold pOnesOf. rewrite length_map, length_seq. reflexivity.
  - unfold pZerosOf. rewrite length_map, length_seq. reflexivity.
  - apply Hlen. apply nth_In. exact H.
  - assert (Hin : In (nth i (values K) []) (values K)) by (apply nth_In; exact H).
    specialize (Hrows _ Hin). lia.
Qed.

(** X5.  With distinct feature labels and thresholds of at least 1,
    no entry of the returned difference and similarity matrices is
    negative. *)
Theorem entries_nonnegative (X K : DataFrame obs) (mp mm : Z) (weight : bool) :
  wf X = true -> distinct (columns X) = true ->
  (1 <= mp)%Z -> (1 <= mm)%Z ->
  dataFilter mp mm X = Some K ->
  (2 <= nrows K)%nat ->
  exists res,
    sparseDistance X mp mm weight = Returns res /\
    forall i j, (i < nrows K)%nat -> (j < nrows K)%nat ->
      0 <= mget (values (out_differenceMatrix res)) i j /\
      0 <= mget (values (out_simMatrix res)) i j.
Proof.
  intros Hwf _ Hmp Hmm HK Hn.
  destruct (sparseDistance_spec X K mp mm weight HK Hn) as [res [Hres [_ [Hpt _]]]].
  destruct (filtered_ready X K mp mm weight Hwf Hmp Hmm HK)
    as [P1 [P0 [L1 [L0 Hrow]]]].
  exists res. split; [exact Hres|].
  intros i j Hi Hj. destruct (Hpt i j Hi Hj) as [Hs [Hd _]]. rewrite Hs, Hd.
  destruct (j <=? i)%nat; [|split; lra].
  destruct (Hrow i Hi) as [La Ca]. destruct (Hrow j Hj) as [Lb _].
  destruct (pair_sums_bounds (pOnesOf weight K) (pZerosOf weight K)
              (nth i (values K) []) (nth j (values K) []))
    as [HU [HS _]]; try congruence.
  assert (HN : 0 < pairNormalisation (pOnesOf weight K) (pZerosOf weight K)
                     (nth i (values K) []) (nth j (values K) []))
    by (apply pairNormalisation_pos; auto; congruence).
  pose proof (Rinv_0_lt_compat _ HN) as Hi'.
  unfold pairwiseNormalizedDistance, normalisedSim, Rdiv. split; nra.
Qed.

Lemma entries_nonnegative_witness :
  wf sampleSparse = true /\ distinct (columns sampleSparse) = true /\
  (1 <= 1)%Z /\ (1 <= 1)%Z /\
  dataFilter 1 1 sampleSparse = Some sampleSparseKept /\
  (2 <= nrows sampleSparseKept)%nat /\
  exists res,
    sparseDistance sampleSparse 1 1 true = Returns res /\
    forall i j, (i < nrows sampleSparseKept)%nat -> (j < nrows sampleSparseKept)%nat ->
      0 <= mget (values (out_differenceMatrix res)) i j /\
      0 <= mget (values (out_simMatrix res)) i j.
Proof.
  split; [reflexivity|]. split; [reflexivity|]. split; [lia|]. split; [lia|].
  split; [vm_compute; reflexivity|]. split; [vm_compute; lia|].
  apply (entries_nonnegative sampleSparse sampleSparseKept 1 1 true).
  - reflexivity.
  - reflexivity.
  - lia.
  - lia.
  - vm_compute; reflexivity.
  - vm_compute; lia.
Defined.

(** X4.  With distinct feature labels and thresholds of at least 1, two
    retained cells with the same row have distance 0: no feature
    contributes to the unnormalised distance, and the normalisation
    factor is positive.  In particular the diagonal of the difference
    matrix is 0. *)
Theorem identical_rows_distance_zero (X K : DataFrame obs) (mp mm : Z) (weight : bool) :
  wf X = true -> distinct (columns X) = true ->
  (1 <= mp)%Z -> (1 <= mm)%Z ->
  dataFilter mp mm X = Some K ->
  (2 <= nrows K)%nat ->
  exists res,
    sparseDistance X mp mm weight = Returns res /\
    (forall i j, (j <= i)%nat -> (i < nrows K)%nat ->
       nth i (values K) [] = nth j (values K) [] ->
       vsum (pairwiseUnnormalizedDistance (pOnesOf weight K) (pZerosOf weight K)
               (nth i (values K) []) (nth j (values K) [])) = 0 /\
       0 < pairNormalisation (pOnesOf weight K) (pZerosOf weight K)
             (nth i (values K) []) (nth j (values K) []) /\
       mget (values (out_differenceMatrix res)) i j = 0) /\
    (forall i, (i < nrows K)%nat ->
       mget (values (out_differenceMatrix res)) i i = 0).
Proof.
  intros Hwf _ Hmp Hmm HK Hn.
  destruct (sparseDistance_spec X K mp mm weight HK Hn) as [res [Hres [_ [Hpt _]]]].
  destruct (filtered_ready X K mp mm weight Hwf Hmp Hmm HK)
    as [P1 [P0 [L1 [L0 Hrow]]]].
  assert (Hsame : forall i j, (j <= i)%nat -> (i < nrows K)%nat ->
       nth i (values K) [] = nth j (values K) [] ->
       vsum (pairwiseUnnormalizedDistance (pOnesOf weight K) (pZerosOf weight K)
               (nth i (values K) []) (nth j (values K) [])) = 0 /\
       0 < pairNormalisation (pOnesOf weight K) (pZerosOf weight K)
             (nth i (values K) []) (nth j (values K) []) /\
       mget (values (out_differenceMatrix res)) i j = 0).
  { intros i j Hji Hi E.
    destruct (Hpt i j) as [_ [Hd _]]; try lia.
    rewrite Hd.
    destruct (j <=? i)%nat eqn:Eb; [|apply Nat.leb_gt in Eb; lia].
    rewrite <- E.
    destruct (Hrow i Hi) as [La Ca].
    destruct (pair_sums_same (pOnesOf weight K) (pZerosOf weight K)
                (nth i (values K) [])) as [HU _]; try congruence.
    assert (HN : 0 < pairNormalisation (pOnesOf weight K) (pZerosOf weight K)
                       (nth i (values K) []) (nth i (values K) []))
      by (apply pairNormalisation_pos; auto; congruence).
    split; [exact HU|]. split; [exact HN|].
    unfold pairwiseNormalizedDistance. rewrite HU. unfold Rdiv. lra. }
  exists res. split; [exact Hres|]. split; [exact Hsame|].
  intros i Hi. destruct (Hsame i i) as [_ [_ H]]; auto.
Qed.

Lemma identical_rows_distance_zero_witness :
  wf sampleTwin = true /\ distinct (columns sampleTwin) = true /\
  (1 <= 1)%Z /\ (1 <= 1)%Z /\
  dataFilter 1 1 sampleTwin = Some sampleTwin /\
  (2 <= nrows sampleTwin)%nat /\
  nth 1 (values sampleTwin) [] = nth 0 (values sampleTwin) [] /\
  exists res,
    sparseDistance sampleTwin 1 1 true = Returns res /\
    (forall i j, (j <= i)%nat -> (i < nrows sampleTwin)%nat ->
       nth i (values sampleTwin) [] = nth j (values sampleTwin) [] ->
       vsum (pairwiseUnnormalizedDistance (pOnesOf true sampleTwin) (pZerosOf true sampleTwin)
               (nth i (values sampleTwin) []) (nth j (values sampleTwin) [])) = 0 /\
       0 < pairNormalisation (pOnesOf true sampleTwin) (pZerosOf true sampleTwin)
             (nth i (values sampleTwin) []) (nth j (values sampleTwin) []) /\
       mget (values (out_differenceMatrix res)) i j = 0) /\
    (forall i, (i < nrows sampleTwin)%nat ->
       mget (values (out_differenceMatrix res)) i i = 0).
Proof.
  split; [reflexivity|]. split; [reflexivity|]. split; [lia|]. split; [lia|].
  split; [vm_compute; reflexivity|]. split; [vm_compute; lia|].
  split; [reflexivity|].
  apply (identical_rows_distance_zero sampleTwin sampleTwin 1 1 true).
  - reflexivity.
  - reflexivity.
  - lia.
  - lia.
  - vm_compute; reflexivity.
  - vm_compute; lia.
Defined.

(** X7.  The two numerators of the pairwise loop, the summed
    unnormalised distance and the raw similarity, are the same for
    [(a, b)] and [(b, a)]: the arrays they sum are equal entry by
    entry. *)
Theorem pairwise_numerators_symmetric (pOnes pZeros : list R) (a b : list obs) :
  pairwiseUnnormalizedDistance pOnes pZeros a b
    = pairwiseUnnormalizedDistance pOnes pZeros b a /\
  vsum (pairwiseUnnormalizedDistance pOnes pZeros a b)
    = vsum (pairwiseUnnormalizedDistance pOnes pZeros b a) /\
  vand (map eq1 a) (map eq1 b) = vand (map eq1 b) (map eq1 a) /\
  vand (map eq0 a) (map eq0 b) = vand (map eq0 b) (map eq0 a) /\
  pairSim pOnes pZeros a b = pairSim pOnes pZeros b a.
Proof.
  rewrite (unnormalized_sym pOnes pZeros a b).
  split; [reflexivity|]. split; [reflexivity|].
  split; [apply vand_comm|]. split; [apply vand_comm | apply pairSim_sym].
Qed.

(** With [weight=False] the three sums count features. *)
Lemma uniform_sums (a : list obs) :
  forall b, length b = length a ->
    pairNormalisation (repeat 2 (length a)) (repeat 2 (length a)) a b
      = 2 * (INR (countIf ge0 a) + INR (countIf ge0 b)) /\
    vsum (pairwiseUnnormalizedDistance (repeat 2 (length a)) (repeat 2 (length a)) a b)
      = 4 * INR (mismatches a b) /\
    pairSim (repeat 2 (length a)) (repeat 2 (length a)) a b
      = 4 * INR (agreements a b).
Proof.
  induction a as [|u a IH]; intros [|v b] L; try discriminate.
  - destruct (pairs_nil [] []) as [H1 [H2 H3]]. simpl length. simpl repeat.
    rewrite H1, H2, H3. unfold mismatches, agreements, countIf, sumb. simpl.
    repeat split; lra.
  - injection L as L. destruct (IH b L) as [IN [IU IS]].
    simpl length. simpl repeat.
    rewrite unnormalized_cons, pairSim_cons, pairNormalisation_cons, IN, IU, IS.
    unfold mismatches, agreements, countIf, sumb.
    destruct u, v; cbn [zipWith filter eq1 eq0 ge0 andb orb b2R length];
      rewrite ?S_INR; repeat split; lra.
Qed.

(** X8.  With [weight=False] and [minMeasurementsPerCell >= 1], the distance
    of two retained cells is four times the number of features where
    one is Present and the other Absent, divided by twice the number of
    non-missing entries of the two rows (which is positive); the
    similarity is four times the number of features where they agree,
    divided by the same. *)
Theorem uniform_weight_distance (X K : DataFrame obs) (mp mm : Z) :
  wf X = true -> (1 <= mm)%Z ->
  dataFilter mp mm X = Some K ->
  (2 <= nrows K)%nat ->
  exists res,
    sparseDistance X mp mm false = Returns res /\
    forall i j, (j <= i)%nat -> (i < nrows K)%nat ->
      0 < 2 * (INR (countIf ge0 (nth i (values K) []))
               + INR (countIf ge0 (nth j (values K) []))) /\
      mget (values (out_differenceMatrix res)) i j
        = 4 * INR (mismatches (nth i (values K) []) (nth j (values K) []))
          / (2 * (INR (countIf ge0 (nth i (values K) []))
                  + INR (countIf ge0 (nth j (values K) [])))) /\
      mget (values (out_simMatrix res)) i j
        = 4 * INR (agreements (nth i (values K) []) (nth j (values K) []))
          / (2 * (INR (countIf ge0 (nth i (values K) []))
                  + INR (countIf ge0 (nth j (values K) [])))).
Proof.
  intros Hwf Hmm HK Hn.
  destruct (sparseDistance_spec X K mp mm false HK Hn) as [res [Hres [_ [Hpt _]]]].
  destruct (dataFilter_fixed mp mm X K Hwf HK) as [HwfK Hfix].
  destruct (filterStep_fixed_tests mp mm K HwfK Hfix) as [Hrows _].
  apply wf_spec in HwfK. destruct HwfK as [_ Hlen].
  exists res. split; [exact Hres|].
  intros i j Hji Hi.
  assert (Ia : In (nth i (values K) []) (values K)) by (apply nth_In; exact Hi).
  assert (Ib : In (nth j (values K) []) (values K))
    by (apply nth_In; unfold nrows in Hi; lia).
  split.
  { assert (Ca : (1 <= countIf ge0 (nth i (values K) []))%nat)
      by (specialize (Hrows _ Ia); lia).
    apply le_INR in Ca. simpl in Ca.
    pose proof (pos_INR (countIf ge0 (nth j (values K) []))). lra. }
  destruct (Hpt i j) as [Hs [Hd _]]; try lia.
  rewrite Hs, Hd.
  destruct (j <=? i)%nat eqn:Eb; [|apply Nat.leb_gt in Eb; lia].
  rewrite pOnesOf_false, pZerosOf_false.
  assert (La : length (nth i (values K) []) = ncols K) by (apply Hlen; exact Ia).
  assert (Lb : length (nth j (values K) []) = ncols K) by (apply Hlen; exact Ib).
  rewrite <- La.
  destruct (uniform_sums (nth i (values K) []) (nth j (values K) []))
    as [HN [HU HS]]; [congruence|].
  unfold pairwiseNormalizedDistance, normalisedSim. rewrite HN, HU, HS.
  split; reflexivity.
Qed.

Lemma uniform_weight_distance_witness :
  wf sampleSparse = true /\ (1 <= 1)%Z /\
  dataFilter 1 1 sampleSparse = Some sampleSparseKept /\
  (2 <= nrows sampleSparseKept)%nat /\
  exists res,
    sparseDistance sampleSparse 1 1 false = Returns res /\
    forall i j, (j <= i)%nat -> (i < nrows sampleSparseKept)%nat ->
      0 < 2 * (INR (countIf ge0 (nth i (values sampleSparseKept) []))
               + INR (countIf ge0 (nth j (values sampleSparseKept) []))) /\
      mget (values (out_differenceMatrix res)) i j
        = 4 * INR (mismatches (nth i (values sampleSparseKept) [])
                              (nth j (values sampleSparseKept) []))
          / (2 * (INR (countIf ge0 (nth i (values sampleSparseKept) []))
                  + INR (countIf ge0 (nth j (values sampleSparseKept) [])))) /\
      mget (values (out_simMatrix res)) i j
        = 4 * INR (agreements (nth i (values sampleSparseKept) [])
                              (nth j (values sampleSparseKept) []))
          / (2 * (INR (countIf ge0 (nth i (values sampleSparseKept) []))
                  + INR (countIf ge0 (nth j (values sampleSparseKept) [])))).
Proof.
  split; [reflexivity|]. split; [lia|].
  split; [vm_compute; reflexivity|]. split; [vm_compute; lia|].
  apply (uniform_weight_distance sampleSparse sampleSparseKept 1 1).
  - reflexivity.
  - lia.
  - vm_compute; reflexivity.
  - vm_compute; lia.
Defined.

(** X9.  With [weight=True], of two columns of one length the one with
    fewer entries passing the test (at least one) gets the strictly
    larger weight: rarer states weigh more. *)
Theorem rarer_state_weighs_more (test : obs -> bool) (col1 col2 : list obs) :
  length col1 = length col2 ->
  (1 <= countIf test col1)%nat ->
  (countIf test col1 < countIf test col2)%nat ->
  weightOf true test col2 < weightOf true test col1.
Proof.
  intros L H1 H2.
  assert (Hle : (countIf test col2 <= length col2)%nat)
    by (unfold countIf; apply filter_length_le).
  unfold weightOf. rewrite L.
  set (c1 := countIf test col1) in *. set (c2 := countIf test col2) in *.
  set (n := length col2) in *. clearbody c1 c2 n.
  assert (Hn : 0 < INR n) by (apply lt_0_INR; lia).
  assert (Hc1 : 0 < INR c1) by (apply lt_0_INR; lia).
  assert (Hc : INR c1 < INR c2) by (apply lt_INR; lia).
  pose proof (Rinv_0_lt_compat _ Hn) as Hi.
  assert (Hp1 : 0 < INR c1 / INR n) by (unfold Rdiv; nra).
  assert (Hp : INR c1 / INR n < INR c2 / INR n) by (unfold Rdiv; nra).
  assert (Hsq : 0 < (INR c1 / INR n) ^ 2 < (INR c2 / INR n) ^ 2) by (split; nra).
  assert (Hln : ln ((INR c1 / INR n) ^ 2) < ln ((INR c2 / INR n) ^ 2))
    by (apply ln_increasing; lra).
  pose proof ln2_pos as H2p. pose proof (Rinv_0_lt_compat _ H2p) as Hi2.
  unfold log2, Rdiv. nra.
Qed.

Lemma rarer_state_weighs_more_witness :
  length [Present; Absent; Absent] = length [Present; Present; Absent] /\
  (1 <= countIf eq1 [Present; Absent; Absent])%nat /\
  (countIf eq1 [Present; Absent; Absent] < countIf eq1 [Present; Present; Absent])%nat /\
  weightOf true eq1 [Present; Present; Absent]
    < weightOf true eq1 [Present; Absent; Absent].
Proof.
  split; [reflexivity|]. split; [vm_compute; lia|]. split; [vm_compute; lia|].
  apply (rarer_state_weighs_more eq1 [Present; Absent; Absent] [Present; Present; Absent]).
  - reflexivity.
  - vm_compute; lia.
  - vm_compute; lia.
Defined.

End Returned.

(** ** Further properties of the filter *)

Lemma subframe_refl (X : DataFrame obs) : subframe X X.
Proof.
  repeat split; try apply Subseq_refl.
  intros row Hin. exists row. split; [exact Hin | apply Subseq_refl].
Qed.

Lemma subframe_trans (X Y Z : DataFrame obs) :
  subframe X Y -> subframe Y Z -> subframe X Z.
Proof.
  intros [I1 [C1 R1]] [I2 [C2 R2]]. repeat split.
  - eapply Subseq_trans; eauto.
  - eapply Subseq_trans; eauto.
  - intros row Hin. destruct (R1 row Hin) as [row1 [Hin1 S1]].
    destruct (R2 row1 Hin1) as [row2 [Hin2 S2]].
    exists row2. split; [exact Hin2|]. eapply Subseq_trans; eauto.
Qed.

Lemma subframe_filterStep (mp mm : Z) (X : DataFrame obs) :
  subframe (filterStep mp mm X) X.
Proof.
  repeat split.
  - apply index_filterStep.
  - apply columns_filterStep.
  - intros row Hin. rewrite filterStep_eq in Hin. simpl in Hin.
    apply in_map_iff in Hin. destruct Hin as [row0 [<- Hin]].
    apply compress_In in Hin. exists row0. split; [exact Hin|].
    apply compress_Subseq.
Qed.

Lemma subframe_filterIter (mp mm : Z) (k : nat) (X : DataFrame obs) :
  subframe (filterIter mp mm k X) X.
Proof.
  induction k as [|k IH]; [apply subframe_refl|].
  change (filterIter mp mm (S k) X) with (filterStep mp mm (filterIter mp mm k X)).
  eapply subframe_trans; [apply subframe_filterStep | exact IH].
Qed.

Lemma nrows_filterIter_le (mp mm : Z) (k : nat) (X : DataFrame obs) :
  nrows (filterIter mp mm k X) <= nrows X.
Proof.
  induction k as [|k IH]; [reflexivity|].
  change (filterIter mp mm (S k) X) with (filterStep mp mm (filterIter mp mm k X)).
  etransitivity; [apply nrows_filterStep_le | exact IH].
Qed.

Lemma forallb_map_true {A} (f : A -> bool) (l : list A) :
  (forall x, In x l -> f x = true) -> forallb (fun b => b) (map f l) = true.
Proof.
  intro H. apply forallb_forall. intros b Hb. apply in_map_iff in Hb.
  destruct Hb as [x [<- Hx]]. apply H. exact Hx.
Qed.

Lemma rowsWhere_all (mask : list bool) (X : DataFrame obs) :
  wf X = true -> length mask = nrows X ->
  forallb (fun b => b) mask = true -> rowsWhere mask X = X.
Proof.
  intros Hwf Hlen Hall. apply wf_spec in Hwf. destruct Hwf as [Hi _].
  unfold rowsWhere. destruct X as [ix cs vs]; simpl in *. f_equal.
  - apply compress_all; auto. unfold nrows in *; simpl in *. congruence.
  - apply compress_all; auto.
Qed.

(** X10.  The filter computes only by removing: labels and rows of its
    output are sub-sequences, in order, of those of its input. *)
Theorem filter_output_subframe (X K : DataFrame obs) (mp mm : Z) :
  wf X = true ->
  dataFilter mp mm X = Some K ->
  subframe K X /\ nrows K <= nrows X /\ ncols K <= ncols X.
Proof.
  intros Hwf HK. rewrite (dataFilter_eq mp mm X Hwf) in HK. injection HK as <-.
  split; [apply subframe_filterIter|]. split; [apply nrows_filterIter_le|].
  generalize (nrows X + ncols X). intro k.
  induction k as [|k IH]; [reflexivity|].
  change (filterIter mp mm (S k) X) with (filterStep mp mm (filterIter mp mm k X)).
  etransitivity; [apply ncols_filterStep_le | exact IH].
Qed.

Lemma filter_output_subframe_witness :
  wf sampleSparse = true /\
  dataFilter 1 1 sampleSparse = Some sampleSparseKept /\
  subframe sampleSparseKept sampleSparse /\
  nrows sampleSparseKept <= nrows sampleSparse /\
  ncols sampleSparseKept <= ncols sampleSparse.
Proof.
  split; [reflexivity|]. split; [vm_compute; reflexivity|].
  apply (filter_output_subframe sampleSparse sampleSparseKept 1 1).
  - reflexivity.
  - vm_compute; reflexivity.
Defined.

(** X11.  A matrix whose rows and columns all pass the selection tests is
    returned by the filter as it is. *)
Theorem passing_matrix_kept (X : DataFrame obs) (mp mm : Z) :
  wf X = true ->
  (forall row, In row (values X) -> (mm <= Z.of_nat (countIf ge0 row))%Z) ->
  (forall j, j < ncols X ->
     (mp <= Z.of_nat (countIf eq1 (column j X)))%Z /\ 1 <= countIf eq0 (column j X)) ->
  dataFilter mp mm X = Some X.
Proof.
  intros Hwf Hrows Hcols.
  assert (Hsc : forallb (fun b => b) (selectCells mm X) = true).
  { unfold selectCells. apply forallb_map_true. intros row Hin.
    apply Z.leb_le. apply Hrows. exact Hin. }
  assert (HR : rowsWhere (selectCells mm X) X = X)
    by (apply rowsWhere_all; auto; apply selectCells_length).
  assert (Hcl : forallb (fun b => b) (selectColumns mp X) = true).
  { unfold selectColumns. apply forallb_map_true. intros j Hj. apply in_seq in Hj.
    destruct (Hcols j) as [H1 H0]; [lia|].
    apply andb_true_iff. split; [apply Z.leb_le; exact H1 | apply Nat.ltb_lt; lia]. }
  assert (Hfix : filterStep mp mm X = X).
  { apply filterStep_same_shape; [exact Hwf|].
    unfold shape. rewrite nrows_filterStep, ncols_filterStep, HR.
    rewrite (sumb_all_true _ Hsc), (sumb_all_true _ Hcl).
    rewrite selectCells_length, selectColumns_length. reflexivity. }
  rewrite (dataFilter_eq mp mm X Hwf). rewrite filterIter_fixed by exact Hfix.
  reflexivity.
Qed.

Lemma passing_matrix_kept_witness :
  wf sampleDense = true /\
  (forall row, In row (values sampleDense) -> (1 <= Z.of_nat (countIf ge0 row))%Z) /\
  (forall j, j < ncols sampleDense ->
     (1 <= Z.of_nat (countIf eq1 (column j sampleDense)))%Z /\
     1 <= countIf eq0 (column j sampleDense)) /\
  dataFilter 1 1 sampleDense = Some sampleDense.
Proof.
  assert (Hrows : forall row, In row (values sampleDense) ->
                    (1 <= Z.of_nat (countIf ge0 row))%Z).
  { intros row Hin. simpl in Hin.
    destruct Hin as [<-|[<-|[<-|[]]]]; vm_compute; discriminate. }
  assert (Hcols : forall j, j < ncols sampleDense ->
     (1 <= Z.of_nat (countIf eq1 (column j sampleDense)))%Z /\
     1 <= countIf eq0 (column j sampleDense)).
  { intros j Hj. change (ncols sampleDense) with 2 in Hj.
    destruct j as [|[|j]]; [| |lia]; split; vm_compute; try discriminate; lia. }
  split; [reflexivity|]. split; [exact Hrows|]. split; [exact Hcols|].
  apply (passing_matrix_kept sampleDense 1 1); [reflexivity | exact Hrows | exact Hcols].
Defined.

(** With thresholds of at least 1 the filter leaves either nothing at
    all or at least two cells and one feature; a single cell, or cells
    without features, cannot remain. *)
Lemma filtered_empty_or_two (X K : DataFrame obs) (mp mm : Z) :
  wf X = true -> (1 <= mp)%Z -> (1 <= mm)%Z ->
  dataFilter mp mm X = Some K ->
  (nrows K = 0 /\ ncols K = 0) \/ (2 <= nrows K /\ 1 <= ncols K).
Proof.
  intros Hwf Hmp Hmm HK.
  destruct (dataFilter_fixed mp mm X K Hwf HK) as [HwfK Hfix].
  destruct (filterStep_fixed_tests mp mm K HwfK Hfix) as [Hrows Hcols].
  apply wf_spec in HwfK. destruct HwfK as [_ Hlen].
  destruct (ncols K) as [|c] eqn:Hc.
  - left. split; [|reflexivity].
    unfold nrows. destruct (values K) as [|row rows]; [reflexivity|]. exfalso.
    assert (Hin : In row (row :: rows)) by (left; reflexivity).
    specialize (Hrows row Hin). specialize (Hlen row Hin).
    destruct row; [|discriminate]. unfold countIf in Hrows. simpl in Hrows. lia.
  - right. split; [|lia].
    destruct (Hcols 0) as [H1 H0]; [lia|].
    pose proof (count_ones_zeros (column 0 K)) as Hle.
    rewrite column_length in Hle. lia.
Qed.

(** X12.  With thresholds of at least 1, [sparseDistance] raises exactly when
    the filter removes everything; otherwise it returns, and at least
    two cells and one feature are retained. *)
Theorem raises_iff_everything_filtered (X : DataFrame obs) (mp mm : Z) (weight : bool) :
  wf X = true -> (1 <= mp)%Z -> (1 <= mm)%Z ->
  exists K,
    dataFilter mp mm X = Some K /\
    ((nrows K = 0 /\ ncols K = 0 /\
      sparseDistance X mp mm weight = Raises (ValueError "Not enough data")) \/
     (2 <= nrows K /\ 1 <= ncols K /\
      exists res, sparseDistance X mp mm weight = Returns res /\ out_keptX res = K)).
Proof.
  intros Hwf Hmp Hmm.
  pose proof (dataFilter_eq mp mm X Hwf) as HK.
  exists (filterIter mp mm (nrows X + ncols X) X). split; [exact HK|].
  destruct (filtered_empty_or_two X _ mp mm Hwf Hmp Hmm HK) as [[Hr Hc]|[Hr Hc]].
  - left. split; [exact Hr|]. split; [exact Hc|].
    apply (sparseDistance_raises X _ mp mm weight HK). lia.
  - right. split; [exact Hr|]. split; [exact Hc|].
    destruct (sparseDistance_spec X _ mp mm weight HK Hr) as [res [Hres [Hk _]]].
    exists res. split; assumption.
Qed.

Lemma raises_iff_everything_filtered_witness :
  wf sampleSparse = true /\ (1 <= 1)%Z /\ (1 <= 1)%Z /\
  exists K,
    dataFilter 1 1 sampleSparse = Some K /\
    ((nrows K = 0 /\ ncols K = 0 /\
      sparseDistance sampleSparse 1 1 true = Raises (ValueError "Not enough data")) \/
     (2 <= nrows K /\ 1 <= ncols K /\
      exists res, sparseDistance sampleSparse 1 1 true = Returns res /\ out_keptX res = K)).
Proof.
  split; [reflexivity|]. split; [lia|]. split; [lia|].
  apply (raises_iff_everything_filtered sampleSparse 1 1 true); [reflexivity | lia | lia].
Defined.

(** X1.  Whatever the thresholds, [sparseDistance] on a rectangular frame
    either returns, with at least two retained cells, or raises
    [ValueError('Not enough data')]: it never runs out of loop passes
    and never reads [normalisationFactor] unbound. *)
Theorem outcome_dichotomy (X : DataFrame obs) (mp mm : Z) (weight : bool) :
  wf X = true ->
  exists K,
    dataFilter mp mm X = Some K /\
    ((nrows K < 2 /\
      sparseDistance X mp mm weight = Raises (ValueError "Not enough data")) \/
     (2 <= nrows K /\
      exists res, sparseDistance X mp mm weight = Returns res /\ out_keptX res = K)) /\
    sparseDistance X mp mm weight <> OutOfFuel /\
    forall name, sparseDistance X mp mm weight <> Raises (NameError name).
Proof.
  intro Hwf. pose proof (dataFilter_eq mp mm X Hwf) as HK.
  exists (filterIter mp mm (nrows X + ncols X) X). split; [exact HK|].
  destruct (Nat.lt_ge_cases (nrows (filterIter mp mm (nrows X + ncols X) X)) 2)
    as [Hlt|Hge].
  - pose proof (sparseDistance_raises X _ mp mm weight HK Hlt) as Hr.
    split; [left; split; assumption|]. rewrite Hr. split; [discriminate|].
    intros name. discriminate.
  - destruct (sparseDistance_spec X _ mp mm weight HK Hge) as [res [Hres [Hk _]]].
    split; [right; split; [exact Hge | exists res; split; assumption]|].
    rewrite Hres. split; [discriminate|]. intros name. discriminate.
Qed.

Lemma outcome_dichotomy_witness :
  wf sampleConstant = true /\
  exists K,
    dataFilter 1 0 sampleConstant = Some K /\
    ((nrows K < 2 /\
      sparseDistance sampleConstant 1 0 true = Raises (ValueError "Not enough data")) \/
     (2 <= nrows K /\
      exists res, sparseDistance sampleConstant 1 0 true = Returns res /\
                  out_keptX res = K)) /\
    sparseDistance sampleConstant 1 0 true <> OutOfFuel /\
    forall name, sparseDistance sampleConstant 1 0 true <> Raises (NameError name).
Proof.
  split; [reflexivity|].
  apply (outcome_dichotomy sampleConstant 1 0 true). reflexivity.
Defined.

(** X13.  An input with fewer than two cells always makes [sparseDistance]
    raise, whatever the thresholds. *)
Theorem few_input_cells_raise (X : DataFrame obs) (mp mm : Z) (weight : bool) :
  wf X = true ->
  nrows X < 2 ->
  sparseDistance X mp mm weight = Raises (ValueError "Not enough data").
Proof.
  intros Hwf Hn. pose proof (dataFilter_eq mp mm X Hwf) as HK.
  apply (sparseDistance_raises X _ mp mm weight HK).
  pose proof (nrows_filterIter_le mp mm (nrows X + ncols X) X). lia.
Qed.

Lemma few_input_cells_raise_witness :
  wf sampleEmpty = true /\ nrows sampleEmpty < 2 /\
  sparseDistance sampleEmpty 1 1 true = Raises (ValueError "Not enough data").
Proof.
  split; [reflexivity|]. split; [vm_compute; lia|].
  apply (few_input_cells_raise sampleEmpty 1 1 true); [reflexivity | vm_compute; lia].
Defined.

(** X14.  When no cell of the input reaches [minMeasurementsPerCell]
    non-missing entries (for instance an input that is missing
    everywhere, with a threshold of at least 1), [sparseDistance]
    raises. *)
Theorem unmeasured_input_raises (X : DataFrame obs) (mp mm : Z) (weight : bool) :
  wf X = true ->
  (forall row, In row (values X) -> (Z.of_nat (countIf ge0 row) < mm)%Z) ->
  sparseDistance X mp mm weight = Raises (ValueError "Not enough data").
Proof.
  intros Hwf Hrows. pose proof (dataFilter_eq mp mm X Hwf) as HK.
  apply (sparseDistance_raises X _ mp mm weight HK).
  assert (H1 : nrows (filterStep mp mm X) = 0).
  { rewrite nrows_filterStep. unfold selectCells, sumb.
    induction (values X) as [|row rows IH]; [reflexivity|]. simpl.
    assert (Hr : (Z.of_nat (countIf ge0 row) < mm)%Z)
      by (apply Hrows; left; reflexivity).
    apply Z.leb_gt in Hr. rewrite Hr. apply IH.
    intros r Hin. apply Hrows. right. exact Hin. }
  destruct (nrows X + ncols X) as [|k] eqn:Hsize.
  - simpl. lia.
  - rewrite filterIter_S.
    pose proof (nrows_filterIter_le mp mm k (filterStep mp mm X)). lia.
Qed.

Lemma unmeasured_input_raises_witness :
  wf sampleMissing = true /\
  (forall row, In row (values sampleMissing) -> (Z.of_nat (countIf ge0 row) < 1)%Z) /\
  sparseDistance sampleMissing 1 1 true = Raises (ValueError "Not enough data").
Proof.
  assert (Hrows : forall row, In row (values sampleMissing) ->
                    (Z.of_nat (countIf ge0 row) < 1)%Z).
  { intros row Hin. simpl in Hin.
    destruct Hin as [<-|[<-|[]]]; vm_compute; reflexivity. }
  split; [reflexivity|]. split; [exact Hrows|].
  apply (unmeasured_input_raises sampleMissing 1 1 true); [reflexivity | exact Hrows].
Defined.

(** X15.  With [minMeasurementsPerCell <= 0] the filter removes no cell: the
    row labels of its output are those of its input. *)
Theorem no_cell_removed_without_threshold (X K : DataFrame obs) (mp mm : Z) :
  wf X = true -> (mm <= 0)%Z ->
  dataFilter mp mm X = Some K ->
  index K = index X /\ nrows K = nrows X.
Proof.
  intros Hwf Hmm HK. rewrite (dataFilter_eq mp mm X Hwf) in HK. injection HK as <-.
  generalize (nrows X + ncols X). intro k.
  induction k as [|k [IHi IHn]]; [split; reflexivity|].
  change (filterIter mp mm (S k) X) with (filterStep mp mm (filterIter mp mm k X)).
  pose proof (wf_filterIter mp mm k X Hwf) as Hwfk.
  set (Y := filterIter mp mm k X) in *.
  assert (Hsc : forallb (fun b => b) (selectCells mm Y) = true).
  { unfold selectCells. apply forallb_map_true. intros row _. apply Z.leb_le. lia. }
  assert (HR : rowsWhere (selectCells mm Y) Y = Y)
    by (apply rowsWhere_all; auto; apply selectCells_length).
  rewrite nrows_filterStep, (sumb_all_true _ Hsc), selectCells_length.
  rewrite filterStep_eq, HR. simpl. split; assumption.
Qed.

Lemma no_cell_removed_without_threshold_witness :
  wf sampleConstant = true /\ (0 <= 0)%Z /\
  dataFilter 1 0 sampleConstant = Some sampleConstantKept /\
  index sampleConstantKept = index sampleConstant /\
  nrows sampleConstantKept = nrows sampleConstant.
Proof.
  split; [reflexivity|]. split; [lia|]. split; [vm_compute; reflexivity|].
  apply (no_cell_removed_without_threshold sampleConstant sampleConstantKept 1 0).
  - reflexivity.
  - lia.
  - vm_compute; reflexivity.
Defined.

(** ** Further properties of the two loops and of the returned tuple *)

(** X16.  Both triangular loops run their body once for each pair
    [j <= i < n], [n (n + 1) / 2] times in all. *)
Theorem triLoop_visits {St} (body : nat -> nat -> St -> St) (n : nat) (st : St) :
  triLoop body n st = fold_left (fun st p => body (fst p) (snd p) st) (triPairs n) st /\
  NoDup (triPairs n) /\
  2 * length (triPairs n) = n * (n + 1) /\
  forall i j, In (i, j) (triPairs n) <-> j <= i < n.
Proof.
  split; [apply triLoop_pairs|]. split; [|split; [|apply In_triPairs]].
  - induction n as [|n IH]; [constructor|].
    rewrite triPairs_S.
    replace (map (pair n) (seq 0 n) ++ [(n, n)]) with (map (pair n) (seq 0 (S n)))
      by (rewrite seq_S, map_app; reflexivity).
    apply NoDup_app; [exact IH| |].
    + apply NoDup_map_NoDup_ForallPairs; [|apply seq_NoDup].
      intros x y _ _ E. injection E as E. exact E.
    + intros [i j] Hin Hin2. apply In_triPairs in Hin.
      apply in_map_iff in Hin2. destruct Hin2 as [j' [E _]].
      injection E as E1 E2. lia.
  - induction n as [|n IH]; [reflexivity|].
    rewrite triPairs_S, !length_app, length_map, length_seq. simpl length. nia.
Qed.

Lemma pairLoop_square (pOnes pZeros : list R) (raw : list (list obs)) (n : nat) :
  square n (simMatrix (triLoop (pairBody pOnes pZeros raw) n (initPairs n))) /\
  square n (differenceMatrix (triLoop (pairBody pOnes pZeros raw) n (initPairs n))).
Proof.
  rewrite triLoop_pairs.
  destruct (pairBody_fold pOnes pZeros raw (triPairs n) (initPairs n))
    as [Hsim [Hdiff _]].
  rewrite Hsim, Hdiff. simpl. split.
  - apply (fill_spec n
             (fun i j => normalisedSim pOnes pZeros (nth i raw []) (nth j raw []))
             _ (triPairs_in_range n) _ (square_zeros n)).
  - apply (fill_spec n
             (fun i j => pairwiseNormalizedDistance pOnes pZeros (nth i raw []) (nth j raw []))
             _ (triPairs_in_range n) _ (square_zeros n)).
Qed.

Lemma mirrorLoop_square (n : nat) (M : matrix) :
  square n M -> square n (triLoop mirrorBody n M).
Proof.
  intro HM. rewrite triLoop_pairs.
  apply (mirror_spec n (triPairs n)); [|exact HM].
  intros [i j] H. apply In_triPairs in H. exact H.
Qed.

(** X2.  On return, the first component is the filtered matrix, and each of
    the three matrices is square of its number of rows, with the row
    labels of the filtered matrix on both axes. *)
Theorem returned_shapes (X K : DataFrame obs) (mp mm : Z) (weight : bool) :
  dataFilter mp mm X = Some K ->
  2 <= nrows K ->
  exists res,
    sparseDistance X mp mm weight = Returns res /\
    out_keptX res = K /\
    Forall (fun M : DataFrame R =>
              index M = index K /\ columns M = index K /\
              square (nrows K) (values M))
           [out_jointMatrix res; out_simMatrix res; out_differenceMatrix res].
Proof.
  intros HK Hn. unfold sparseDistance. rewrite HK.
  destruct (nrows K <? 2) eqn:E; [apply Nat.ltb_lt in E; lia|]. clear E.
  cbv zeta. fold (nrows K).
  destruct (pairLoop_spec (pOnesOf weight K) (pZerosOf weight K) (values K) (nrows K))
    as [_ [Hsq Hnf]].
  destruct (pairLoop_square (pOnesOf weight K) (pZerosOf weight K) (values K) (nrows K))
    as [Hs Hd].
  rewrite Hnf by lia.
  eexists. split; [reflexivity|]. simpl. split; [reflexivity|].
  constructor; [|constructor; [|constructor; [|constructor]]].
  - split; [reflexivity|]. split; [reflexivity|].
    apply mirrorLoop_square. exact Hsq.
  - split; [reflexivity|]. split; [reflexivity | exact Hs].
  - split; [reflexivity|]. split; [reflexivity | exact Hd].
Qed.

Lemma returned_shapes_witness :
  dataFilter 1 1 sampleSparse = Some sampleSparseKept /\
  2 <= nrows sampleSparseKept /\
  exists res,
    sparseDistance sampleSparse 1 1 true = Returns res /\
    out_keptX res = sampleSparseKept /\
    Forall (fun M : DataFrame R =>
              index M = index sampleSparseKept /\ columns M = index sampleSparseKept /\
              square (nrows sampleSparseKept) (values M))
           [out_jointMatrix res; out_simMatrix res; out_differenceMatrix res].
Proof.
  split; [vm_compute; reflexivity|]. split; [vm_compute; lia|].
  apply (returned_shapes sampleSparse sampleSparseKept 1 1 true).
  - vm_compute; reflexivity.
  - vm_compute; lia.
Defined.

(** X3.  With distinct feature labels and thresholds of at least 1, the
    returned joint matrix is symmetric: its entries at [(i, j)] and at
    [(j, i)] both hold the joint score the pairwise loop computed at the
    position below the diagonal, with a positive normalisation
    factor. *)
Theorem jointMatrix_mirrored (X K : DataFrame obs) (mp mm : Z) (weight : bool) :
  wf X = true -> distinct (columns X) = true ->
  (1 <= mp)%Z -> (1 <= mm)%Z ->
  dataFilter mp mm X = Some K ->
  2 <= nrows K ->
  exists res,
    sparseDistance X mp mm weight = Returns res /\
    forall i j, i < nrows K -> j < nrows K ->
      mget (values (out_jointMatrix res)) i j = mget (values (out_jointMatrix res)) j i /\
      mget (values (out_jointMatrix res)) i j =
        joinedDistance (pOnesOf weight K) (pZerosOf weight K)
          (nth (Nat.max i j) (values K) []) (nth (Nat.min i j) (values K) []) /\
      (0 < pairNormalisation (pOnesOf weight K) (pZerosOf weight K)
             (nth (Nat.max i j) (values K) []) (nth (Nat.min i j) (values K) []))%R.
Proof.
  intros Hwf _ Hmp Hmm HK Hn.
  destruct (sparseDistance_spec X K mp mm weight HK Hn) as [res [Hres [_ [Hpt _]]]].
  destruct (filtered_ready X K mp mm weight Hwf Hmp Hmm HK)
    as [P1 [P0 [L1 [L0 Hrow]]]].
  exists res. split; [exact Hres|]. intros i j Hi Hj.
  destruct (Hpt i j Hi Hj) as [_ [_ H1]]. destruct (Hpt j i Hj Hi) as [_ [_ H2]].
  rewrite H1, H2. split; [|split].
  - rewrite Nat.max_comm, Nat.min_comm. reflexivity.
  - reflexivity.
  - destruct (Hrow (Nat.max i j)) as [La Ca]; [lia|].
    apply pairNormalisation_pos; auto; congruence.
Qed.

Lemma jointMatrix_mirrored_witness :
  wf sampleSparse = true /\ distinct (columns sampleSparse) = true /\
  (1 <= 1)%Z /\ (1 <= 1)%Z /\
  dataFilter 1 1 sampleSparse = Some sampleSparseKept /\
  2 <= nrows sampleSparseKept /\
  exists res,
    sparseDistance sampleSparse 1 1 true = Returns res /\
    forall i j, i < nrows sampleSparseKept -> j < nrows sampleSparseKept ->
      mget (values (out_jointMatrix res)) i j = mget (values (out_jointMatrix res)) j i /\
      mget (values (out_jointMatrix res)) i j =
        joinedDistance (pOnesOf true sampleSparseKept) (pZerosOf true sampleSparseKept)
          (nth (Nat.max i j) (values sampleSparseKept) [])
          (nth (Nat.min i j) (values sampleSparseKept) []) /\
      (0 < pairNormalisation (pOnesOf true sampleSparseKept) (pZerosOf true sampleSparseKept)
             (nth (Nat.max i j) (values sampleSparseKept) [])
             (nth (Nat.min i j) (values sampleSparseKept) []))%R.
Proof.
  split; [reflexivity|]. split; [reflexivity|]. split; [lia|]. split; [lia|].
  split; [vm_compute; reflexivity|]. split; [vm_compute; lia|].
  apply (jointMatrix_mirrored sampleSparse sampleSparseKept 1 1 true).
  - reflexivity.
  - reflexivity.
  - lia.
  - lia.
  - vm_compute; reflexivity.
  - vm_compute; lia.
Defined.
